(** * vinitd: the process-event monitor and the shutdown sequence

    A shallow embedding of [pkg/vorteil/process.go]: the netlink
    process-connector listener, the two registry maps [procs] and
    [internal], the exit handler and [shutdown].

    Conventions.
    - Go's [uint32]/[uint16] wire fields are [N]; Go's [int] values
      (the init status, pids returned by the process roster, reboot
      commands, signal numbers) are [Z].  No arithmetic is done on any of
      them by the code below, so no wrap-around has to be written out.
    - The package-level variables [procs], [internal] and [initStatus]
      are the fields of [registry]; functions that touch them run in the
      monad [M], which threads the registry and appends to a trace of
      the calls made to the outside world (log sink, signals, sleeps,
      files, disk, reboot).
    - Answers of the operating system are read from a record [os]. *)

From Stdlib Require Import ZArith NArith String Ascii List Bool Lia.
From Stdlib Require Import Init.Byte.
From stdpp Require Import base decidable option list gmap strings pretty.

Import ListNotations.
Local Open Scope string_scope.
Local Open Scope list_scope.
Local Open Scope Z_scope.

(** ** Constants of [process.go] *)

Definition procCNMCASTListen : N := 1.
Definition cnIDXProc : N := 1.
Definition cnValProc : N := 1.
Definition procEventExit : N := 0x80000000.
Definition procEventFork : N := 0x00000001.
Definition procEventExec : N := 0x00000002.

Definition busboxScript : string := "/vorteil/busybox-install.sh".

(** Constants of the Go libraries the file uses. *)
Definition NLMSG_DONE : N := 3.
Definition NLMSG_HDRLEN : Z := 16.
Definition SIGINT : Z := 2.
Definition SIGTERM : Z := 15.
Definition LINUX_REBOOT_CMD_POWER_OFF : Z := 0x4321fedc.
Definition LINUX_REBOOT_CMD_RESTART : Z := 0x1234567.

(** Modelled from the spec: the init-status constants [statusLaunched] and
    [statusPoweroff] and the variable [initStatus] are declared in a file
    of the package that is not part of the sources at hand.  The spec
    gives the ordered phases Booting, Launching, Launched, PoweringOff;
    they are numbered in that order, as Go's [iota] would. *)
Definition statusBooting : Z := 0.
Definition statusLaunching : Z := 1.
Definition statusLaunched : Z := 2.
Definition statusPoweroff : Z := 3.

(** ** Wire records *)

Record ProcEventHeader := mkProcEventHeader {
  What : N;
  CPU : N;
  Timestamp : N;
  ProcessPid : N;
  ProcessTgid : N
}.

Record CbID := mkCbID { Idx : N; Val : N }.

Record CnMsg := mkCnMsg {
  ID : CbID;
  Seq : N;
  Ack : N;
  Len : N;
  Flags : N
}.

(** [syscall.NlMsghdr] and [syscall.NetlinkMessage]. *)
Record NlMsghdr := mkNlMsghdr {
  nl_Len : N;
  nl_Type : N;
  nl_Flags : N;
  nl_Seq : N;
  nl_Pid : N
}.

Record NetlinkMessage := mkNetlinkMessage {
  Header : NlMsghdr;
  Data : list byte
}.

(** ** Little-endian decoding: [binary.Read] on a [bytes.Buffer] *)

Fixpoint le_uint (bs : list byte) : N :=
  match bs with
  | [] => 0%N
  | b :: bs' => (Byte.to_N b + 256 * le_uint bs')%N
  end.

(** The field of [width] bytes at byte offset [off]. *)
Definition field (off width : nat) (bs : list byte) : N :=
  le_uint (take width (drop off bs)).

Definition sizeof_CnMsg : nat := 20.
Definition sizeof_ProcEventHeader : nat := 24.

Definition decode_CnMsg (bs : list byte) : CnMsg :=
  {| ID := {| Idx := field 0 4 bs; Val := field 4 4 bs |};
     Seq := field 8 4 bs;
     Ack := field 12 4 bs;
     Len := field 16 2 bs;
     Flags := field 18 2 bs |}.

Definition decode_ProcEventHeader (bs : list byte) : ProcEventHeader :=
  {| What := field 0 4 bs;
     CPU := field 4 4 bs;
     Timestamp := field 8 8 bs;
     ProcessPid := field 16 4 bs;
     ProcessTgid := field 20 4 bs |}.

(** [binary.Read(buf, binary.LittleEndian, data)] for a pointer to a
    fixed-size struct: it reads [size] bytes with [io.ReadFull].  When
    the buffer holds fewer, the read fails, the buffer has been drained
    and [data] keeps the value it had ([old]); the callers in
    [process.go] drop the error.  The result is the value of [data]
    after the call and the rest of the buffer. *)
Definition binary_Read {A : Type} (size : nat) (decode : list byte → A)
    (old : A) (buf : list byte) : A * list byte :=
  if (size <=? length buf)%nat
  then (decode (take size buf), drop size buf)
  else (old, []).

Definition zero_CnMsg : CnMsg :=
  {| ID := {| Idx := 0; Val := 0 |}; Seq := 0; Ack := 0; Len := 0; Flags := 0 |}%N.

Definition zero_ProcEventHeader : ProcEventHeader :=
  {| What := 0; CPU := 0; Timestamp := 0; ProcessPid := 0; ProcessTgid := 0 |}%N.

(** ** The registry and the outside world *)

(** The package variables [procs], [internal] and [initStatus]. *)
Record registry := mkRegistry {
  procs : gmap N N;
  internal : gmap N string;
  initStatus : Z
}.

Definition set_procs (f : gmap N N → gmap N N) (r : registry) : registry :=
  {| procs := f (procs r); internal := internal r; initStatus := initStatus r |}.
Definition set_internal (f : gmap N string → gmap N string) (r : registry) : registry :=
  {| procs := procs r; internal := f (internal r); initStatus := initStatus r |}.
Definition set_initStatus (z : Z) (r : registry) : registry :=
  {| procs := procs r; internal := internal r; initStatus := z |}.

(** The four log functions of [log.go]. *)
Inductive logfn := LogAlways | LogDebug | LogWarn | LogError.

(** Calls that leave the program, in the order they are made.  A log
    call is recorded with its format string (the text itself where the
    source builds it with [fmt.Sprintf]); calls whose error result the
    source drops carry that result, [true] for success.  A reboot call
    that succeeds stops the machine; what is recorded after a [Reboot]
    is what the program does when the call returns with an error. *)
Inductive effect :=
| Log (fn : logfn) (format : string)
| Kill (pid : Z) (sig : Z) (ok : bool)
| Sleep (millis : Z)
| WriteFile (name data : string) (ok : bool)
| FlushDisk (disk : string)
| Reboot (cmd : Z) (ok : bool).

(** An entry of [ps.Processes()]. *)
Record ps_Process := mkProcess { Pid : Z; PPid : Z }.

(** What the operating system and the collaborators outside
    [process.go] answer: [None] or [false] is an error. *)
Record os := mkOs {
  os_Readlink : string → option string;
  os_Processes : option (list ps_Process);
  os_Kill : Z → Z → bool;
  os_WriteFile : string → string → bool;
  os_bootDisk : option string;
  os_Reboot : Z → bool
}.

(** [*program]: only the fields [handleExit] reads.  [cmd] is an
    [*exec.Cmd], [Process] its [*os.Process]; [None] is [nil]. *)
Record exec_Cmd := mkCmd { Process : option Z }.
Record program := mkProgram { cmd : option exec_Cmd }.

(** ** The monad: registry state and a trace of effects *)

Definition M (A : Type) : Type := registry → A * registry * list effect.

Definition ret {A} (a : A) : M A := fun r => (a, r, []).

Definition bind {A B} (c : M A) (k : A → M B) : M B :=
  fun r =>
    let x := c r in
    let y := k (fst (fst x)) (snd (fst x)) in
    (fst (fst y), snd (fst y), snd x ++ snd y).

Definition get : M registry := fun r => (r, r, []).
Definition modify (f : registry → registry) : M unit := fun r => (tt, f r, []).
Definition emit (e : effect) : M unit := fun r => (tt, r, [e]).

Declare Scope go_scope.
Delimit Scope go_scope with go.
Notation "x <- c ;; k" := (bind c (fun x => k))
  (at level 20, c at level 99, k at level 200, only parsing) : go_scope.
Notation "c ;; k" := (bind c (fun _ => k))
  (at level 100, k at level 200, right associativity, only parsing) : go_scope.
Local Open Scope go_scope.

(** What a computation leaves behind. *)
Definition state_of {A} (x : A * registry * list effect) : registry := snd (fst x).
Definition trace_of {A} (x : A * registry * list effect) : list effect := snd x.

Definition logAlways (format : string) : M unit := emit (Log LogAlways format).
Definition logDebug (format : string) : M unit := emit (Log LogDebug format).
Definition logWarn (format : string) : M unit := emit (Log LogWarn format).
Definition logError (format : string) : M unit := emit (Log LogError format).

(** [for _, x := range l { body x }] without early exit. *)
Fixpoint for_each {A} (l : list A) (body : A → M unit) : M unit :=
  match l with
  | [] => ret tt
  | x :: l' => body x ;; for_each l' body
  end.

(** ** [killAll] and [shutdown] *)

Definition killAll (env : os) : M unit :=
  match os_Processes env with
  | None => logError "can not get processes: %s"
  | Some pl =>
      for_each pl (fun p =>
        (* don't kill us (pid 1) and kthread (pid 2) *)
        if (2 <? Pid p) && (2 <? PPid p)
        then emit (Kill (Pid p) SIGINT (os_Kill env (Pid p) SIGINT)) ;;
             emit (Kill (Pid p) SIGTERM (os_Kill env (Pid p) SIGTERM))
        else ret tt)
  end.

Definition sysrq_trigger : string := "/proc/sysrq-trigger".

(** [shutdown(cmd, timeout)]; the loop [for i := 3; i > 0; i--] runs
    over 3, 2, 1. *)
Definition shutdown (cmd timeout : Z) (env : os) : M unit :=
  r <- get ;;
  if initStatus r =? statusPoweroff then ret tt
  else
    modify (set_initStatus statusPoweroff) ;;
    logAlways "shutting down applications" ;;
    killAll env ;;
    emit (Sleep timeout) ;;
    for_each [3; 2; 1] (fun i =>
      logAlways (String.append "shutting down in " (String.append (pretty i) "...")) ;;
      emit (Sleep 1000)) ;;
    emit (WriteFile sysrq_trigger "s" (os_WriteFile env sysrq_trigger "s")) ;;
    emit (WriteFile sysrq_trigger "u" (os_WriteFile env sysrq_trigger "u")) ;;
    (* flush disk *)
    match os_bootDisk env with
    | None => logError "could not get disk name: %s"
    | Some p => emit (FlushDisk p)
    end ;;
    emit (Reboot cmd (os_Reboot env cmd)).

(** ** The exit handler *)

(** [p.cmd == nil || p.cmd.Process == nil] *)
Definition not_started (p : program) : bool :=
  match cmd p with
  | None => true
  | Some c => match Process c with None => true | Some _ => false end
  end.

(** [internal[k]]: a missing key reads as the empty string. *)
Definition internal_at (r : registry) (k : N) : string :=
  default "" (internal r !! k).

Definition handleExit (hdr : ProcEventHeader) (progs : list program) (env : os) : M unit :=
  if (ProcessTgid hdr =? ProcessPid hdr)%N then
    r <- get ;;
    (* check if internal process *)
    if (0 <? String.length (internal_at r (ProcessTgid hdr)))%nat then
      modify (set_internal (delete (ProcessTgid hdr)))
    (* the apps have started but haven't done netlink *)
    else if (size (procs r) =? 0)%nat && (statusLaunched <=? initStatus r) then
      logDebug "apps launched but not registered"
    else
      logDebug "remove app pid %d, procs %v" ;;
      modify (set_procs (delete (ProcessTgid hdr))) ;;
      r <- get ;;
      if (size (procs r) =? 0)%nat then
        (* if not all apps had been started we return *)
        if initStatus r <? statusLaunched then logDebug "still launching"
        (* check if all apps have started. they might be in bootstrap *)
        else if existsb not_started progs then logDebug "apps still starting"
        else
          logAlways "no programs still running" ;;
          shutdown LINUX_REBOOT_CMD_POWER_OFF 0 env
      else ret tt
  else ret tt.

(** ** Decoding and dispatching one netlink message *)

(** [fmt.Sprintf("/proc/%d/exe", tgid)] *)
Definition proc_exe (tgid : N) : string :=
  String.append "/proc/" (String.append (pretty tgid) "/exe").

(** The condition of [parseNetlinkMessage] that sends a resolved path
    to [procs]: [!strings.HasPrefix(st, "/vorteil/") || st == "/vorteil/busybox"]. *)
Definition to_procs (st : string) : bool :=
  negb (String.prefix "/vorteil/" st) || String.eqb st "/vorteil/busybox".

(** The [switch hdr.What] of [parseNetlinkMessage]. *)
Definition handleEvent (hdr : ProcEventHeader) (progs : list program) (env : os) : M unit :=
  if (What hdr =? procEventFork)%N || (What hdr =? procEventExec)%N then
    match os_Readlink env (proc_exe (ProcessTgid hdr)) with
    | None => ret tt (* app probably already finished *)
    | Some st =>
        (if to_procs st
         then modify (set_procs (insert (ProcessTgid hdr) (ProcessTgid hdr)))
         else modify (set_internal (insert (ProcessTgid hdr) st))) ;;
        logDebug "add application %s, pid %d, procs %d"
    end
  else if (What hdr =? procEventExit)%N then handleExit hdr progs env
  else ret tt.

Definition parseNetlinkMessage (m : NetlinkMessage) (progs : list program) (env : os) : M unit :=
  if (nl_Type (Header m) =? NLMSG_DONE)%N then
    let buf := Data m in
    let rd1 := binary_Read sizeof_CnMsg decode_CnMsg zero_CnMsg buf in
    let rd2 := binary_Read sizeof_ProcEventHeader decode_ProcEventHeader
                 zero_ProcEventHeader (snd rd1) in
    handleEvent (fst rd2) progs env
  else ret tt.

(** The events a message is decoded to: none when the message is not
    of the completion type or the header read leaves [What] at a value
    the switch has no case for. *)
Definition is_event (hdr : ProcEventHeader) : bool :=
  (What hdr =? procEventFork)%N || (What hdr =? procEventExec)%N
  || (What hdr =? procEventExit)%N.

Definition decodeEvents (m : NetlinkMessage) : list ProcEventHeader :=
  if (nl_Type (Header m) =? NLMSG_DONE)%N then
    let rd1 := binary_Read sizeof_CnMsg decode_CnMsg zero_CnMsg (Data m) in
    let rd2 := binary_Read sizeof_ProcEventHeader decode_ProcEventHeader
                 zero_ProcEventHeader (snd rd1) in
    if is_event (fst rd2) then [fst rd2] else []
  else [].

(** ** Receiving *)

(** [unix.Sockaddr]: the interface value [from] is a netlink address,
    an address of another family, or nil ([None] below). *)
Record SockaddrNetlink := mkSockaddrNetlink {
  sa_Family : N;
  sa_Pad : N;
  sa_Pid : N;
  sa_Groups : N
}.

Inductive Sockaddr :=
| Netlink (sa : SockaddrNetlink)
| OtherFamily.

Inductive result (A : Type) :=
| Ok (a : A)
| Err (msg : string).
Arguments Ok {A} a.
Arguments Err {A} msg.

(** What [unix.Recvfrom(sock, p, 0)] returns, and the buffer [p] as the
    kernel filled it. *)
Record Recvfrom := mkRecvfrom {
  rf_nr : Z;
  rf_from : option Sockaddr;
  rf_err : option string;
  rf_p : list byte
}.

Section Listener.

(** [syscall.ParseNetlinkMessage] of Go's library, which splits the
    bytes received into messages. *)
Variable ParseNetlinkMessage : list byte → result (list NetlinkMessage).

Definition recv (rf : Recvfrom) : result (list NetlinkMessage) :=
  if match rf_from rf with
     | Some (Netlink sockaddrNl) => negb (sa_Pid sockaddrNl =? 0)%N
     | _ => true
     end
  then Err "can not create netlink sockaddr"
  else
    match rf_err rf with
    | Some e => Err e
    | None =>
        if rf_nr rf <? NLMSG_HDRLEN
        then Err "number of bytes too small, received %d bytes"
        else
          match ParseNetlinkMessage (take (Z.to_nat (rf_nr rf)) (rf_p rf)) with
          | Err e => Err e
          | Ok nlmessages => Ok nlmessages
          end
    end.

(** [for _, m := range nlmessages { parseNetlinkMessage(m, progs) }];
    [env i] is what the system answers while message [i] is handled. *)
Fixpoint parse_all (i : nat) (ms : list NetlinkMessage) (progs : list program)
    (env : nat → os) : M unit :=
  match ms with
  | [] => ret tt
  | m :: ms' =>
      parseNetlinkMessage m progs (env i) ;;
      parse_all (S i) ms' progs env
  end.

(** One turn of the [for] loop of [listenToProcesses]. *)
Definition listenOnce (rf : Recvfrom) (progs : list program) (env : nat → os) : M unit :=
  match recv rf with
  | Err _ => logWarn "error receiving netlink message: %s"
  | Ok nlmessages => parse_all 0 nlmessages progs env
  end.

End Listener.

(** [listenToProcesses] starts from two empty maps. *)
Definition fresh (status : Z) : registry :=
  {| procs := ∅; internal := ∅; initStatus := status |}.

(** ** Event sequences *)

(** One event as the listener meets it: the decoded header, the
    application roster and the system's answers at that moment. *)
Record input := mkInput {
  in_hdr : ProcEventHeader;
  in_progs : list program;
  in_env : os
}.

Definition step (i : input) : M unit :=
  handleEvent (in_hdr i) (in_progs i) (in_env i).

Definition run (evs : list input) : M unit := for_each evs step.

Definition is_fork_or_exec (hdr : ProcEventHeader) : Prop :=
  What hdr = procEventFork ∨ What hdr = procEventExec.

Definition is_exit (hdr : ProcEventHeader) : Prop :=
  What hdr = procEventExit.

(** Exit of a thread-group leader. *)
Definition is_leader_exit (hdr : ProcEventHeader) : Prop :=
  is_exit hdr ∧ ProcessPid hdr = ProcessTgid hdr.

(** Registries the listener can be in: it starts from [fresh], handles
    events, and the rest of the daemon writes [initStatus]. *)
Inductive reachable : registry → Prop :=
| reach_fresh status : reachable (fresh status)
| reach_step r i : reachable r → reachable (state_of (step i r))
| reach_status r z : reachable r → reachable (set_initStatus z r).

(** A fork or exec whose executable link resolves to a path the code
    stores in [procs]. *)
Definition registers_app (i : input) : Prop :=
  is_fork_or_exec (in_hdr i) ∧
  ∃ st, os_Readlink (in_env i) (proc_exe (ProcessTgid (in_hdr i))) = Some st ∧
        to_procs st = true.

(** Every program of the roster has its command and process handle. *)
Definition all_started (progs : list program) : Prop :=
  existsb not_started progs = false.

(** The line the second early return of [handleExit] writes. *)
Definition unregistered_log : effect :=
  Log LogDebug "apps launched but not registered".

(** ** The shutdown decision *)

(** The spec's two classes of a resolved path and two decisions of the
    exit handler, read off the code: a path is an application's when
    the code stores its pid in [procs]; the handler decides to shut
    down when it reaches the call of [shutdown], which nothing but
    [logAlways("no programs still running")] precedes. *)
Inductive class := Application | Internal.

Definition classify (st : string) : class :=
  if to_procs st then Application else Internal.

Inductive ShutdownDecision := NoAction | TriggerShutdown.

Definition is_trigger (e : effect) : bool :=
  match e with
  | Log LogAlways s => String.eqb s "no programs still running"
  | _ => false
  end.

Definition is_reboot (e : effect) : bool :=
  match e with
  | Reboot _ _ => true
  | _ => false
  end.

Definition is_debug_log (e : effect) : bool :=
  match e with
  | Log LogDebug _ => true
  | _ => false
  end.

Definition count (p : effect → bool) (t : list effect) : nat :=
  length (filter (fun e => p e = true) t).

Definition decision (t : list effect) : ShutdownDecision :=
  if existsb is_trigger t then TriggerShutdown else NoAction.

(** ** Invariants named by the claims *)

Definition disjoint_maps (r : registry) : Prop :=
  ∀ k, procs r !! k = None ∨ internal r !! k = None.

(** Every path kept in [internal] is under "/vorteil/". *)
Definition internal_paths (r : registry) : Prop :=
  ∀ k st, internal r !! k = Some st → String.prefix "/vorteil/" st = true.

(** A fork or exec that would put a pid into one map while the other
    one holds it. *)
Definition crossing (i : input) (r : registry) : Prop :=
  is_fork_or_exec (in_hdr i) ∧
  ∃ st, os_Readlink (in_env i) (proc_exe (ProcessTgid (in_hdr i))) = Some st ∧
        if to_procs st
        then is_Some (internal r !! ProcessTgid (in_hdr i))
        else is_Some (procs r !! ProcessTgid (in_hdr i)).

Fixpoint no_crossing (evs : list input) (r : registry) : Prop :=
  match evs with
  | [] => True
  | i :: evs' => ¬ crossing i r ∧ no_crossing evs' (state_of (step i r))
  end.

(** ** Two callers of [shutdown]

    [shutdown] is called by [handleExit] on the listener's goroutine
    and by [SystemPanic] ([log.go]) on whichever goroutine fails.  Each
    caller goes through the function in four steps: the test of
    [initStatus], the assignment to it, the steps up to the disk flush,
    and the reboot call.  A schedule says which caller moves next. *)

(** The statements of [shutdown] between the assignment and the reboot. *)
Definition shutdown_body (timeout : Z) (env : os) : M unit :=
  logAlways "shutting down applications" ;;
  killAll env ;;
  emit (Sleep timeout) ;;
  for_each [3; 2; 1] (fun i =>
    logAlways (String.append "shutting down in " (String.append (pretty i) "...")) ;;
    emit (Sleep 1000)) ;;
  emit (WriteFile sysrq_trigger "s" (os_WriteFile env sysrq_trigger "s")) ;;
  emit (WriteFile sysrq_trigger "u" (os_WriteFile env sysrq_trigger "u")) ;;
  match os_bootDisk env with
  | None => logError "could not get disk name: %s"
  | Some p => emit (FlushDisk p)
  end.

Inductive pc := AtGuard | AtSet | AtBody | AtReboot | Returned.

Record caller := mkCaller { c_pc : pc; c_cmd : Z; c_timeout : Z }.

Definition goto (c : caller) (l : pc) : caller :=
  {| c_pc := l; c_cmd := c_cmd c; c_timeout := c_timeout c |}.

Definition entering (cmd timeout : Z) : caller :=
  {| c_pc := AtGuard; c_cmd := cmd; c_timeout := timeout |}.

Definition caller_step (env : os) (c : caller) : M caller :=
  match c_pc c with
  | AtGuard =>
      r <- get ;;
      if initStatus r =? statusPoweroff then ret (goto c Returned)
      else ret (goto c AtSet)
  | AtSet => modify (set_initStatus statusPoweroff) ;; ret (goto c AtBody)
  | AtBody => shutdown_body (c_timeout c) env ;; ret (goto c AtReboot)
  | AtReboot =>
      emit (Reboot (c_cmd c) (os_Reboot env (c_cmd c))) ;; ret (goto c Returned)
  | Returned => ret c
  end.

(** [false] moves the first caller, [true] the second. *)
Fixpoint interleave (sched : list bool) (env : os) (a b : caller) : M (caller * caller) :=
  match sched with
  | [] => ret (a, b)
  | false :: sched' => a' <- caller_step env a ;; interleave sched' env a' b
  | true :: sched' => b' <- caller_step env b ;; interleave sched' env a b'
  end.

Definition is_kill_round (e : effect) : bool :=
  match e with
  | Log LogAlways s => String.eqb s "shutting down applications"
  | _ => false
  end.

(** ** Sample data

    Headers, rosters and system answers used by the examples. *)

Definition fork_of (tgid : N) : ProcEventHeader :=
  {| What := procEventFork; CPU := 0; Timestamp := 0;
     ProcessPid := tgid; ProcessTgid := tgid |}.

Definition exec_of (tgid : N) : ProcEventHeader :=
  {| What := procEventExec; CPU := 0; Timestamp := 0;
     ProcessPid := tgid; ProcessTgid := tgid |}.

Definition exit_of (pid tgid : N) : ProcEventHeader :=
  {| What := procEventExit; CPU := 0; Timestamp := 0;
     ProcessPid := pid; ProcessTgid := tgid |}.

(** A system in which every executable link resolves to [exe] and
    everything [shutdown] tries fails. *)
Definition failing_os (exe : string) : os :=
  {| os_Readlink := fun _ => Some exe;
     os_Processes := None;
     os_Kill := fun _ _ => false;
     os_WriteFile := fun _ _ => false;
     os_bootDisk := None;
     os_Reboot := fun _ => false |}.

(** The same with a process roster, where the signals still fail. *)
Definition busy_os (exe : string) : os :=
  {| os_Readlink := fun _ => Some exe;
     os_Processes := Some [mkProcess 1 0; mkProcess 2 0; mkProcess 100 1;
                           mkProcess 104 100; mkProcess 105 104];
     os_Kill := fun _ _ => false;
     os_WriteFile := fun _ _ => true;
     os_bootDisk := Some "/dev/sda";
     os_Reboot := fun _ => false |}.

Definition started (pid : Z) : program :=
  {| cmd := Some {| Process := Some pid |} |}.

Definition starting : program := {| cmd := Some {| Process := None |} |}.

Definition app_event (hdr : ProcEventHeader) (exe : string) : input :=
  {| in_hdr := hdr; in_progs := [started 100; started 101]; in_env := busy_os exe |}.

(** The launch of an application by the daemon: the forked child still
    runs the daemon's binary, then executes the application. *)
Definition launch_of_app : list input :=
  [ {| in_hdr := fork_of 100; in_progs := [starting];
       in_env := failing_os "/vorteil/vinitd" |};
    {| in_hdr := exec_of 100; in_progs := [starting];
       in_env := failing_os "/usr/bin/app" |} ].

Definition is_kill (e : effect) : bool :=
  match e with
  | Kill _ _ _ => true
  | _ => false
  end.

(** ** Encoding: [binary.Write] and [send] *)

(** The low byte of [n]. *)
Definition byte_of (n : N) : byte := default x00 (Byte.of_N (n mod 256)).

(** [binary.Write(buf, binary.LittleEndian, v)] for an unsigned field
    of [width] bytes: the low [width] bytes of [n], lowest first. *)
Fixpoint le_bytes (width : nat) (n : N) : list byte :=
  match width with
  | O => []
  | S w => byte_of n :: le_bytes w (n / 256)
  end.

Definition encode_NlMsghdr (h : NlMsghdr) : list byte :=
  le_bytes 4 (nl_Len h) ++ le_bytes 2 (nl_Type h) ++ le_bytes 2 (nl_Flags h)
    ++ le_bytes 4 (nl_Seq h) ++ le_bytes 4 (nl_Pid h).

Definition encode_CnMsg (m : CnMsg) : list byte :=
  le_bytes 4 (Idx (ID m)) ++ le_bytes 4 (Val (ID m)) ++ le_bytes 4 (Seq m)
    ++ le_bytes 4 (Ack m) ++ le_bytes 2 (Len m) ++ le_bytes 2 (Flags m).

(** The bytes the kernel sends for a [ProcEventHeader], by the layout
    of the struct. *)
Definition encode_ProcEventHeader (h : ProcEventHeader) : list byte :=
  le_bytes 4 (What h) ++ le_bytes 4 (CPU h) ++ le_bytes 8 (Timestamp h)
    ++ le_bytes 4 (ProcessPid h) ++ le_bytes 4 (ProcessTgid h).

(** A header whose fields fit their Go types. *)
Definition header_in_range (h : ProcEventHeader) : Prop :=
  (What h < 2 ^ 32 ∧ CPU h < 2 ^ 32 ∧ Timestamp h < 2 ^ 64 ∧
   ProcessPid h < 2 ^ 32 ∧ ProcessTgid h < 2 ^ 32)%N.

Definition AF_NETLINK : N := 16.
Definition sizeof_uint32 : nat := 4.

(** [uint32(x)] for an [int]. *)
Definition uint32_of_int (x : Z) : N := Z.to_N (x mod 2 ^ 32).

(** The three values [send] writes, for the process id [getpid]. *)
Definition send_header (getpid : Z) : NlMsghdr :=
  {| nl_Len := Z.to_N NLMSG_HDRLEN + N.of_nat (sizeof_CnMsg + sizeof_uint32);
     nl_Type := NLMSG_DONE;
     nl_Flags := 0;
     nl_Seq := 1;
     nl_Pid := uint32_of_int getpid |}%N.

Definition send_cnMsg : CnMsg :=
  {| ID := {| Idx := cnIDXProc; Val := cnValProc |};
     Seq := 1;
     Ack := 0;
     Len := N.of_nat sizeof_uint32;
     Flags := 0 |}%N.

Definition send_buffer (getpid : Z) (msg : N) : list byte :=
  encode_NlMsghdr (send_header getpid) ++ encode_CnMsg send_cnMsg ++ le_bytes 4 msg.

(** [destAddr] of [send]: the kernel. *)
Definition kernel_addr : SockaddrNetlink :=
  {| sa_Family := AF_NETLINK; sa_Pad := 0; sa_Pid := 0; sa_Groups := cnIDXProc |}%N.

(** What the socket calls of [listenToProcesses] answer: [Err] or
    [Some] is an error. *)
Record transport := mkTransport {
  tr_Getpid : Z;
  tr_Socket : result Z;
  tr_Bind : Z → SockaddrNetlink → option string;
  tr_Sendto : Z → list byte → SockaddrNetlink → option string
}.

Definition send (tr : transport) (sock : Z) (msg : N) : option string :=
  tr_Sendto tr sock (send_buffer (tr_Getpid tr) msg) kernel_addr.

(** ** [listenToProcesses] *)

(** The bind address of [listenToProcesses]. *)
Definition bind_addr (tr : transport) : SockaddrNetlink :=
  {| sa_Family := AF_NETLINK; sa_Pad := 0;
     sa_Pid := uint32_of_int (tr_Getpid tr);
     sa_Groups := cnIDXProc |}.

(** One turn of the receive loop: what [Recvfrom] returns, and the
    roster and the system's answers while its messages are handled. *)
Record round := mkRound {
  rd_recv : Recvfrom;
  rd_progs : list program;
  rd_env : nat → os
}.

Section Listening.

Variable ParseNetlinkMessage : list byte → result (list NetlinkMessage).

(** The first [length rounds] turns of the endless [for] loop. *)
Definition listen_loop (rounds : list round) : M unit :=
  for_each rounds (fun rd =>
    listenOnce ParseNetlinkMessage (rd_recv rd) (rd_progs rd) (rd_env rd)).

Definition listenToProcesses (tr : transport) (rounds : list round) : M unit :=
  modify (fun r => {| procs := ∅; internal := ∅; initStatus := initStatus r |}) ;;
  match tr_Socket tr with
  | Err _ => logError "socket for process listening failed: %s"
  | Ok sock =>
      let addr := bind_addr tr in
      match tr_Bind tr sock addr with
      | Some _ => logError "bind for process listening failed: %s"
      | None =>
          match send tr sock procCNMCASTListen with
          | Some _ => logError "send for process listening failed: %s"
          | None => listen_loop rounds
          end
      end
  end.

End Listening.

(** ** [SystemPanic] ([log.go]) *)

(** [forcedPoweroffTimeout] is declared outside the sources at hand and
    is a parameter. *)
Definition SystemPanic (forcedPoweroffTimeout : Z) (format : string) (env : os) : M unit :=
  logAlways format ;;
  shutdown LINUX_REBOOT_CMD_POWER_OFF forcedPoweroffTimeout env.

(** ** Helpers of the package: [uniqueIPs], [ip2networkInt] *)

(** [binary.LittleEndian.Uint32(b)]: the first four bytes; [None] is
    the run-time panic for a slice shorter than four. *)
Definition LittleEndian_Uint32 (b : list byte) : option N :=
  if (4 <=? length b)%nat then Some (le_uint (take 4 b)) else None.

(** [ip[12:16]] of a slice of length 16. *)
Definition ip2networkInt (ip : list byte) : option N :=
  if (length ip =? 16)%nat
  then LittleEndian_Uint32 (take 4 (drop 12 ip))
  else LittleEndian_Uint32 ip.

Section UniqueIPs.

(** [net.IP] is a byte slice; its method [String] belongs to Go's
    library. *)
Variable IP_String : list byte → string.

(** The loop of [uniqueIPs] with its two locals [keys] and [list]. *)
Fixpoint uniqueIPs_loop (ipSlice : list (list byte)) (keys : gmap string bool)
    (acc : list (list byte)) : list (list byte) :=
  match ipSlice with
  | [] => acc
  | entry :: rest =>
      match keys !! IP_String entry with
      | Some _ => uniqueIPs_loop rest keys acc
      | None => uniqueIPs_loop rest (<[IP_String entry := true]> keys) (acc ++ [entry])
      end
  end.

Definition uniqueIPs (ipSlice : list (list byte)) : list (list byte) :=
  uniqueIPs_loop ipSlice ∅ [].

End UniqueIPs.

(** ** Measures on traces and events *)

(** Go's [int64], as [time.Duration] is: values wrap around. *)
Definition wrap_int64 (z : Z) : Z :=
  (z + 9223372036854775808) mod 18446744073709551616 - 9223372036854775808.

(** [time.Duration(ms) * time.Millisecond], in nanoseconds. *)
Definition Duration_of_millis (ms : Z) : Z := wrap_int64 (wrap_int64 ms * 1000000).

(** The nanoseconds [time.Sleep] takes for a call recorded as
    [Sleep ms]: a zero or negative duration returns at once. *)
Definition slept_for (ms : Z) : Z := Z.max 0 (Duration_of_millis ms).

(** Nanoseconds spent in [time.Sleep]. *)
Fixpoint slept (t : list effect) : Z :=
  match t with
  | [] => 0
  | Sleep ms :: t' => slept_for ms + slept t'
  | _ :: t' => slept t'
  end.

(** The events the switch and the exit handler act on: forks, execs and
    exits of thread-group leaders. *)
Definition acted_on (i : input) : bool :=
  (What (in_hdr i) =? procEventFork)%N || (What (in_hdr i) =? procEventExec)%N
  || ((What (in_hdr i) =? procEventExit)%N
      && (ProcessTgid (in_hdr i) =? ProcessPid (in_hdr i))%N).

(** The processes [killAll] signals. *)
Definition signalled (p : ps_Process) : bool := (2 <? Pid p) && (2 <? PPid p).

(** When [handleExit] reaches the call of [shutdown]: a leader exit
    that is not an internal one and takes the last pid out of [procs],
    with the init status at [statusLaunched] or above and every program
    started. *)
Definition shuts_down (hdr : ProcEventHeader) (progs : list program) (r : registry) : Prop :=
  is_leader_exit hdr ∧
  internal_at r (ProcessTgid hdr) = "" ∧
  procs r ≠ ∅ ∧
  delete (ProcessTgid hdr) (procs r) = ∅ ∧
  statusLaunched ≤ initStatus r ∧
  all_started progs.

(** The events of the messages of one datagram, each with the roster
    and the answers of the system at its turn. *)
Fixpoint inputs_of (i : nat) (ms : list NetlinkMessage) (progs : list program)
    (env : nat → os) : list input :=
  match ms with
  | [] => []
  | m :: ms' =>
      map (fun hdr => mkInput hdr progs (env i)) (decodeEvents m)
        ++ inputs_of (S i) ms' progs env
  end.

(** The events of one turn of the loop: none when [recv] fails. *)
Definition inputs_of_round (parse : list byte → result (list NetlinkMessage))
    (rd : round) : list input :=
  match recv parse (rd_recv rd) with
  | Err _ => []
  | Ok ms => inputs_of 0 ms (rd_progs rd) (rd_env rd)
  end.

Definition is_warning (e : effect) : bool :=
  match e with
  | Log LogWarn _ => true
  | _ => false
  end.

(** * Properties *)

(** ** The monad and the maps *)

Ltac unfold_M :=
  unfold logAlways, logDebug, logWarn, logError in *;
  unfold bind, ret, get, modify, emit, state_of, trace_of in *;
  cbn [fst snd] in *.

Lemma size_eqb_0 {V} (m : gmap N V) : (size m =? 0)%nat = true ↔ m = ∅.
Proof. rewrite Nat.eqb_eq. apply map_size_empty_iff. Qed.

Lemma size_eqb_0_false {V} (m : gmap N V) : (size m =? 0)%nat = false ↔ m ≠ ∅.
Proof. rewrite Nat.eqb_neq. by rewrite map_size_empty_iff. Qed.

Lemma length_pos_eqb (s : string) : (0 <? String.length s)%nat = false ↔ s = "".
Proof.
  destruct s as [|a s]; cbn; split; intros H; try done.
Qed.

Lemma run_nil r : run [] r = (tt, r, []).
Proof. reflexivity. Qed.

Lemma run_cons i evs r :
  run (i :: evs) r =
  (tt, state_of (run evs (state_of (step i r))),
   trace_of (step i r) ++ trace_of (run evs (state_of (step i r)))).
Proof.
  unfold run. cbn [for_each]. unfold_M.
  by destruct (for_each evs step (step i r).1.2) as [[[] ?] ?].
Qed.

Lemma run_app evs1 evs2 r :
  state_of (run (evs1 ++ evs2) r) = state_of (run evs2 (state_of (run evs1 r))) ∧
  trace_of (run (evs1 ++ evs2) r) =
    trace_of (run evs1 r) ++ trace_of (run evs2 (state_of (run evs1 r))).
Proof.
  revert r. induction evs1 as [|i evs1 IH]; intros r.
  - by rewrite run_nil.
  - cbn [app]. rewrite !run_cons. unfold state_of, trace_of in *. cbn [fst snd].
    destruct (IH (step i r).1.2) as [-> ->]. by rewrite app_assoc.
Qed.

Lemma count_app p t1 t2 : count p (t1 ++ t2) = (count p t1 + count p t2)%nat.
Proof. unfold count. by rewrite filter_app, length_app. Qed.

Lemma count_0_existsb p t : count p t = 0%nat ↔ existsb p t = false.
Proof.
  unfold count. induction t as [|e t IH]; [done|].
  cbn [existsb]. rewrite filter_cons. destruct (p e) eqn:He.
  - rewrite decide_True by done. cbn. split; [lia | done].
  - rewrite decide_False by (by intros ?). by cbn.
Qed.

(** ** [shutdown] *)

Lemma shutdown_guarded cmd timeout env r :
  initStatus r = statusPoweroff → shutdown cmd timeout env r = (tt, r, []).
Proof. intros H. unfold shutdown. unfold_M. by rewrite H. Qed.

(** Past the guard, [shutdown] is the assignment, the body and the
    reboot call. *)
Lemma shutdown_entered cmd timeout env r :
  initStatus r ≠ statusPoweroff →
  shutdown cmd timeout env r =
  (tt, state_of (shutdown_body timeout env (set_initStatus statusPoweroff r)),
   trace_of (shutdown_body timeout env (set_initStatus statusPoweroff r))
     ++ [Reboot cmd (os_Reboot env cmd)]).
Proof.
  intros H. apply Z.eqb_neq in H.
  unfold shutdown, shutdown_body. unfold_M. rewrite H. cbn [fst snd].
  f_equal. cbn [app]. by rewrite <- !app_assoc.
Qed.

Lemma for_each_state {A} (l : list A) (body : A → M unit) (P : registry → Prop) r :
  (∀ x r', P r' → P (state_of (body x r'))) → P r → P (state_of (for_each l body r)).
Proof.
  intros Hbody. revert r. induction l as [|x l IH]; intros r Hr; [done|].
  cbn [for_each]. unfold_M. apply IH. by apply Hbody.
Qed.

Lemma for_each_trace {A} (l : list A) (body : A → M unit) (P : effect → Prop) r :
  (∀ x r', Forall P (trace_of (body x r'))) → Forall P (trace_of (for_each l body r)).
Proof.
  intros Hbody. revert r. induction l as [|x l IH]; intros r.
  - constructor.
  - cbn [for_each]. unfold_M. apply Forall_app. split; [apply Hbody | apply IH].
Qed.

Lemma killAll_state env r : state_of (killAll env r) = r.
Proof.
  unfold killAll. destruct (os_Processes env) as [pl|]; [|done].
  apply (for_each_state pl _ (λ r', r' = r)); [|done].
  intros p r' ->. by destruct ((2 <? Pid p) && (2 <? PPid p)).
Qed.

Lemma killAll_trace env r :
  Forall (λ e, is_reboot e = false ∧ is_trigger e = false ∧ is_kill_round e = false)
    (trace_of (killAll env r)).
Proof.
  unfold killAll. destruct (os_Processes env) as [pl|].
  - apply for_each_trace. intros p r'.
    destruct ((2 <? Pid p) && (2 <? PPid p)); unfold_M; repeat constructor.
  - unfold_M. repeat constructor.
Qed.

Lemma shutdown_body_state timeout env r : state_of (shutdown_body timeout env r) = r.
Proof.
  unfold shutdown_body. unfold_M. cbn [for_each]. unfold_M.
  destruct (os_bootDisk env); cbn [fst snd]; apply killAll_state.
Qed.

Lemma Forall_count_0 p (t : list effect) :
  Forall (λ e, p e = false) t → count p t = 0%nat.
Proof.
  intros H. apply count_0_existsb. induction H as [|e t He _ IH]; [done|].
  cbn [existsb]. by rewrite He, IH.
Qed.

Lemma shutdown_body_trace timeout env r :
  count is_reboot (trace_of (shutdown_body timeout env r)) = 0%nat ∧
  count is_trigger (trace_of (shutdown_body timeout env r)) = 0%nat ∧
  count is_kill_round (trace_of (shutdown_body timeout env r)) = 1%nat.
Proof.
  pose proof (killAll_trace env r) as Hk.
  assert (count is_reboot (trace_of (killAll env r)) = 0%nat) as Hr.
  { apply Forall_count_0. eapply Forall_impl; [exact Hk|]. by intros e (?&?&?). }
  assert (count is_trigger (trace_of (killAll env r)) = 0%nat) as Ht.
  { apply Forall_count_0. eapply Forall_impl; [exact Hk|]. by intros e (?&?&?). }
  assert (count is_kill_round (trace_of (killAll env r)) = 0%nat) as Hl.
  { apply Forall_count_0. eapply Forall_impl; [exact Hk|]. by intros e (?&?&?). }
  unfold shutdown_body. unfold_M. cbn [for_each]. unfold_M.
  change (Log LogAlways "shutting down applications" :: ?t) with
    ([Log LogAlways "shutting down applications"] ++ t).
  rewrite !count_app, Hr, Ht, Hl.
  destruct (os_bootDisk env); cbn; done.
Qed.

(** ** [handleExit], one lemma for each way out of the function *)

Section HandleExit.

Variables (hdr : ProcEventHeader) (progs : list program) (env : os) (r : registry).

Let tgid := ProcessTgid hdr.

Lemma handleExit_thread :
  ProcessTgid hdr ≠ ProcessPid hdr → handleExit hdr progs env r = (tt, r, []).
Proof.
  intros H. unfold handleExit. apply N.eqb_neq in H. by rewrite H.
Qed.

Hypothesis leader : ProcessPid hdr = ProcessTgid hdr.

Lemma handleExit_internal :
  internal_at r tgid ≠ "" →
  handleExit hdr progs env r = (tt, set_internal (delete tgid) r, []).
Proof.
  intros H. unfold handleExit. rewrite leader, N.eqb_refl. unfold_M.
  destruct (0 <? String.length (internal_at r (ProcessTgid hdr)))%nat eqn:E; [done|].
  by apply length_pos_eqb in E.
Qed.

Hypothesis not_internal : internal_at r tgid = "".

Lemma handleExit_unregistered :
  procs r = ∅ → statusLaunched ≤ initStatus r →
  handleExit hdr progs env r =
  (tt, r, [Log LogDebug "apps launched but not registered"]).
Proof.
  intros Hp Hs. unfold handleExit. rewrite leader, N.eqb_refl. unfold_M.
  fold tgid. rewrite not_internal. cbn [String.length Nat.ltb Nat.leb].
  apply size_eqb_0 in Hp. apply Z.leb_le in Hs. by rewrite Hp, Hs.
Qed.

(** The cases below are past the two early returns. *)
Hypothesis registered_or_launching : procs r ≠ ∅ ∨ initStatus r < statusLaunched.

Let removed := set_procs (delete tgid) r.
Let remove_log := Log LogDebug "remove app pid %d, procs %v".

Lemma handleExit_past_returns :
  handleExit hdr progs env r =
  if (size (procs removed) =? 0)%nat then
    if initStatus r <? statusLaunched
    then (tt, removed, [remove_log; Log LogDebug "still launching"])
    else if existsb not_started progs
    then (tt, removed, [remove_log; Log LogDebug "apps still starting"])
    else (tt, state_of (shutdown LINUX_REBOOT_CMD_POWER_OFF 0 env removed),
          [remove_log; Log LogAlways "no programs still running"]
            ++ trace_of (shutdown LINUX_REBOOT_CMD_POWER_OFF 0 env removed))
  else (tt, removed, [remove_log]).
Proof.
  unfold handleExit. rewrite leader, N.eqb_refl. unfold_M.
  fold tgid. rewrite not_internal. cbn [String.length Nat.ltb Nat.leb].
  assert ((size (procs r) =? 0)%nat && (statusLaunched <=? initStatus r) = false) as ->.
  { apply andb_false_iff. destruct registered_or_launching as [H|H].
    - left. by apply size_eqb_0_false.
    - right. apply Z.leb_gt. lia. }
  fold removed. cbn [fst snd].
  destruct (size (procs removed) =? 0)%nat; [|done].
  change (initStatus removed) with (initStatus r).
  destruct (initStatus r <? statusLaunched); [done|].
  destruct (existsb not_started progs); [done|].
  by destruct (shutdown LINUX_REBOOT_CMD_POWER_OFF 0 env removed) as [[[] ?] ?].
Qed.

Lemma handleExit_remaining :
  delete tgid (procs r) ≠ ∅ →
  handleExit hdr progs env r = (tt, removed, [remove_log]).
Proof.
  intros H. rewrite handleExit_past_returns.
  change (procs removed) with (delete tgid (procs r)).
  by apply size_eqb_0_false in H as ->.
Qed.

Lemma handleExit_launching :
  delete tgid (procs r) = ∅ → initStatus r < statusLaunched →
  handleExit hdr progs env r =
  (tt, removed, [remove_log; Log LogDebug "still launching"]).
Proof.
  intros H Hs. rewrite handleExit_past_returns.
  change (procs removed) with (delete tgid (procs r)).
  apply size_eqb_0 in H as ->. by apply Z.ltb_lt in Hs as ->.
Qed.

Lemma handleExit_starting :
  delete tgid (procs r) = ∅ → statusLaunched ≤ initStatus r →
  existsb not_started progs = true →
  handleExit hdr progs env r =
  (tt, removed, [remove_log; Log LogDebug "apps still starting"]).
Proof.
  intros H Hs Hp. rewrite handleExit_past_returns.
  change (procs removed) with (delete tgid (procs r)).
  apply size_eqb_0 in H as ->. apply Z.ltb_ge in Hs as ->. by rewrite Hp.
Qed.

Lemma handleExit_shutdown :
  delete tgid (procs r) = ∅ → statusLaunched ≤ initStatus r →
  existsb not_started progs = false →
  handleExit hdr progs env r =
  (tt, state_of (shutdown LINUX_REBOOT_CMD_POWER_OFF 0 env removed),
   [remove_log; Log LogAlways "no programs still running"]
     ++ trace_of (shutdown LINUX_REBOOT_CMD_POWER_OFF 0 env removed)).
Proof.
  intros H Hs Hp. rewrite handleExit_past_returns.
  change (procs removed) with (delete tgid (procs r)).
  apply size_eqb_0 in H as ->. apply Z.ltb_ge in Hs as ->. by rewrite Hp.
Qed.

End HandleExit.

Lemma handleEvent_exit hdr progs env :
  is_exit hdr → handleEvent hdr progs env = handleExit hdr progs env.
Proof. intros H. unfold handleEvent. by rewrite H. Qed.

Lemma handleEvent_fork_exec hdr progs env r :
  is_fork_or_exec hdr →
  handleEvent hdr progs env r =
  match os_Readlink env (proc_exe (ProcessTgid hdr)) with
  | None => (tt, r, [])
  | Some st =>
      (tt,
       if to_procs st
       then set_procs (insert (ProcessTgid hdr) (ProcessTgid hdr)) r
       else set_internal (insert (ProcessTgid hdr) st) r,
       [Log LogDebug "add application %s, pid %d, procs %d"])
  end.
Proof.
  intros H. unfold handleEvent.
  assert ((What hdr =? procEventFork)%N || (What hdr =? procEventExec)%N = true) as ->.
  { destruct H as [-> | ->]; done. }
  destruct (os_Readlink env (proc_exe (ProcessTgid hdr))) as [st|]; [|done].
  unfold_M. by destruct (to_procs st).
Qed.

Lemma handleEvent_other hdr progs env r :
  ¬ is_fork_or_exec hdr → ¬ is_exit hdr → handleEvent hdr progs env r = (tt, r, []).
Proof.
  intros H1 H2. unfold handleEvent, is_fork_or_exec, is_exit in *.
  destruct (N.eqb_spec (What hdr) procEventFork); [tauto|].
  destruct (N.eqb_spec (What hdr) procEventExec); [tauto|].
  destruct (N.eqb_spec (What hdr) procEventExit); [tauto|]. done.
Qed.

Lemma event_kinds hdr :
  is_fork_or_exec hdr ∨ is_exit hdr ∨ (¬ is_fork_or_exec hdr ∧ ¬ is_exit hdr).
Proof.
  unfold is_fork_or_exec, is_exit.
  destruct (N.eq_dec (What hdr) procEventFork); [tauto|].
  destruct (N.eq_dec (What hdr) procEventExec); [tauto|].
  destruct (N.eq_dec (What hdr) procEventExit); tauto.
Qed.

(** ** Classification of fork and exec events *)

Lemma to_procs_spec st :
  to_procs st = true ↔ String.prefix "/vorteil/" st = false ∨ st = "/vorteil/busybox".
Proof.
  unfold to_procs. rewrite orb_true_iff, negb_true_iff.
  by rewrite String.eqb_eq.
Qed.

(** C1, as the code has it.  For a fork or exec event whose executable
    link resolves to [st], the pid goes to [procs] (class Application)
    exactly when [st] is outside "/vorteil/" or is the embedded shell
    "/vorteil/busybox"; every other path under "/vorteil/", the
    bootstrap script among them, is class Internal and is recorded in
    [internal].  The other map and the init status are left as they
    were. *)
Theorem fork_exec_classification hdr progs env r st :
  is_fork_or_exec hdr →
  os_Readlink env (proc_exe (ProcessTgid hdr)) = Some st →
  let tgid := ProcessTgid hdr in
  let r' := state_of (handleEvent hdr progs env r) in
  (classify st = Application ↔
     String.prefix "/vorteil/" st = false ∨ st = "/vorteil/busybox") ∧
  (classify st = Internal ↔
     String.prefix "/vorteil/" st = true ∧ st ≠ "/vorteil/busybox") ∧
  match classify st with
  | Application => procs r' = <[tgid := tgid]> (procs r) ∧ internal r' = internal r
  | Internal => internal r' = <[tgid := st]> (internal r) ∧ procs r' = procs r
  end ∧
  initStatus r' = initStatus r ∧
  classify busboxScript = Internal.
Proof.
  intros Hk Hst tgid r'. subst r'.
  rewrite handleEvent_fork_exec, Hst by done. unfold state_of. cbn [fst snd].
  assert (classify st = Application ↔
            String.prefix "/vorteil/" st = false ∨ st = "/vorteil/busybox") as HA.
  { rewrite <- to_procs_spec. unfold classify. by destruct (to_procs st). }
  assert (classify st = Internal ↔
            String.prefix "/vorteil/" st = true ∧ st ≠ "/vorteil/busybox") as HI.
  { unfold classify. destruct (to_procs st) eqn:E.
    - apply to_procs_spec in E. split; [done|].
      intros [Hp Hne]. destruct E; congruence.
    - split; [intros _|done]. split.
      + destruct (String.prefix "/vorteil/" st) eqn:P; [done|].
        assert (to_procs st = true) by (apply to_procs_spec; auto). congruence.
      + intros ->. vm_compute in E. done. }
  split; [exact HA|]. split; [exact HI|].
  unfold classify. by destruct (to_procs st).
Qed.

Lemma fork_exec_classification_witness :
  internal (state_of (handleEvent (fork_of 100) [] (failing_os "/vorteil/app")
                        (fresh statusLaunching)))
  = {[ 100%N := "/vorteil/app" ]}.
Proof.
  pose proof (fork_exec_classification (fork_of 100) [] (failing_os "/vorteil/app")
                (fresh statusLaunching) "/vorteil/app") as H.
  cbn zeta in H.
  destruct H as (_ & _ & H & _); [by left | reflexivity |].
  change (classify "/vorteil/app") with Internal in H.
  destruct H as [H _]. exact H.
Defined.

(** C1 as stated fails: "/vorteil/app" is neither the bootstrap script
    nor the embedded shell, yet the fork does not reach [procs]; and
    the embedded shell itself is sent to [procs]. *)
Lemma fork_vorteil_app_not_tracked :
  let r' := state_of (handleEvent (fork_of 100) [] (failing_os "/vorteil/app")
                        (fresh statusLaunching)) in
  let shell := state_of (handleEvent (fork_of 7) [] (failing_os "/vorteil/busybox")
                           (fresh statusLaunching)) in
  "/vorteil/app" ≠ busboxScript ∧ "/vorteil/app" ≠ "/vorteil/busybox" ∧
  String.prefix "/vorteil/" "/vorteil/app" = true ∧
  procs r' = ∅ ∧ procs r' ≠ {[ 100%N := 100%N ]} ∧
  internal r' = {[ 100%N := "/vorteil/app" ]} ∧
  procs shell = {[ 7%N := 7%N ]} ∧ internal shell = ∅.
Proof.
  cbn zeta. repeat split; done.
Qed.

(** ** What an exit can do to the registry *)

Lemma shutdown_state cmd timeout env r :
  state_of (shutdown cmd timeout env r) = set_initStatus statusPoweroff r.
Proof.
  destruct (Z.eq_dec (initStatus r) statusPoweroff) as [E|E].
  - rewrite shutdown_guarded by done. destruct r as [p i s].
    cbn in E. subst s. reflexivity.
  - rewrite shutdown_entered by done. unfold state_of at 1. cbn [fst snd].
    apply shutdown_body_state.
Qed.

Lemma handleExit_cases hdr progs env r :
  let r' := state_of (handleExit hdr progs env r) in
  r' = r ∨
  r' = set_internal (delete (ProcessTgid hdr)) r ∨
  r' = set_procs (delete (ProcessTgid hdr)) r ∨
  r' = set_initStatus statusPoweroff (set_procs (delete (ProcessTgid hdr)) r).
Proof.
  cbn zeta.
  destruct (N.eq_dec (ProcessTgid hdr) (ProcessPid hdr)) as [L|L];
    [|rewrite handleExit_thread by done; auto].
  symmetry in L.
  destruct (string_dec (internal_at r (ProcessTgid hdr)) "") as [I|I];
    [|rewrite handleExit_internal by done; auto].
  destruct (decide (procs r = ∅)) as [P|P];
    [destruct (Z_lt_dec (initStatus r) statusLaunched) as [S|S]|].
  - rewrite handleExit_past_returns by auto. repeat case_match; auto.
    unfold state_of at 1. cbn [fst snd]. rewrite shutdown_state. auto.
  - rewrite handleExit_unregistered by (done || lia). auto.
  - rewrite handleExit_past_returns by auto. repeat case_match; auto.
    unfold state_of at 1. cbn [fst snd]. rewrite shutdown_state. auto.
Qed.

Lemma handleExit_maps hdr progs env r :
  let r' := state_of (handleExit hdr progs env r) in
  (procs r' = procs r ∨ procs r' = delete (ProcessTgid hdr) (procs r)) ∧
  (internal r' = internal r ∨ internal r' = delete (ProcessTgid hdr) (internal r)).
Proof.
  cbn zeta. destruct (handleExit_cases hdr progs env r) as [H|[H|[H|H]]];
    cbn zeta in H; rewrite H; cbn; auto.
Qed.

Lemma internal_paths_step i r : internal_paths r → internal_paths (state_of (step i r)).
Proof.
  intros Hr. unfold step.
  destruct (event_kinds (in_hdr i)) as [K|[K|[K1 K2]]].
  - rewrite handleEvent_fork_exec by done.
    destruct (os_Readlink _ _) as [st|]; [|done]. unfold state_of. cbn [fst snd].
    destruct (to_procs st) eqn:E; [done|].
    intros k st'. cbn. rewrite lookup_insert. case_decide; [|apply Hr].
    intros [= <-]. unfold to_procs in E. apply orb_false_iff in E as [E _].
    by apply negb_false_iff in E.
  - rewrite handleEvent_exit by done.
    destruct (handleExit_maps (in_hdr i) (in_progs i) (in_env i) r) as [_ [H|H]];
      cbn zeta in H; intros k st'; rewrite H; [apply Hr|].
    rewrite lookup_delete. case_decide; [done|apply Hr].
  - by rewrite handleEvent_other.
Qed.

Lemma reachable_internal_paths r : reachable r → internal_paths r.
Proof.
  induction 1 as [status|r i _ IH|r z _ IH].
  - intros k st. cbn. by rewrite lookup_empty.
  - by apply internal_paths_step.
  - exact IH.
Qed.

Lemma internal_paths_nonempty r k st :
  internal_paths r → internal r !! k = Some st → internal_at r k ≠ "".
Proof.
  intros Hr Hk. unfold internal_at. rewrite Hk. cbn.
  intros ->. by apply Hr in Hk.
Qed.

(** ** Exits during the launch window *)

(** C6.  A leader exit seen while the init status is below
    [statusLaunched] decides NoAction: the handler only writes debug
    lines (so it neither signals nor reboots) and leaves the init
    status alone, whatever [procs] holds before or after. *)
Theorem exit_before_launched_no_action hdr progs env r :
  is_leader_exit hdr →
  initStatus r < statusLaunched →
  let x := handleEvent hdr progs env r in
  decision (trace_of x) = NoAction ∧
  Forall (λ e, is_debug_log e = true) (trace_of x) ∧
  count is_reboot (trace_of x) = 0%nat ∧
  initStatus (state_of x) = initStatus r.
Proof.
  intros [Hx Hl] Hs. cbn zeta. rewrite handleEvent_exit by done.
  destruct (string_dec (internal_at r (ProcessTgid hdr)) "") as [I|I].
  - rewrite handleExit_past_returns by auto.
    apply Z.ltb_lt in Hs. rewrite Hs.
    destruct (size _ =? 0)%nat; unfold trace_of, state_of; cbn [fst snd];
      repeat split; repeat constructor.
  - rewrite handleExit_internal by done. repeat split. constructor.
Qed.

Lemma exit_before_launched_no_action_witness :
  decision (trace_of (handleEvent (exit_of 100 100) [started 100] (busy_os "/bin/app")
                        {| procs := {[ 100%N := 100%N ]}; internal := ∅;
                           initStatus := statusLaunching |})) = NoAction.
Proof.
  refine (proj1 (exit_before_launched_no_action (exit_of 100 100) [started 100]
                   (busy_os "/bin/app")
                   {| procs := {[ 100%N := 100%N ]}; internal := ∅;
                      initStatus := statusLaunching |} _ _)).
  - split; reflexivity.
  - reflexivity.
Defined.

(** ** Exits of internal processes *)

(** C7.  In any registry the listener can reach, a leader exit whose
    tgid is a key of [internal] deletes that key, leaves [procs] and the
    init status untouched and does nothing else: the decision is
    NoAction, for every init status. *)
Theorem internal_exit_only_forgets hdr progs env r st :
  reachable r →
  is_leader_exit hdr →
  internal r !! ProcessTgid hdr = Some st →
  let x := handleEvent hdr progs env r in
  internal (state_of x) = delete (ProcessTgid hdr) (internal r) ∧
  procs (state_of x) = procs r ∧
  initStatus (state_of x) = initStatus r ∧
  trace_of x = [] ∧
  decision (trace_of x) = NoAction.
Proof.
  intros Hr [Hx Hl] Hst. cbn zeta. rewrite handleEvent_exit by done.
  rewrite handleExit_internal; [done|done|].
  eapply internal_paths_nonempty; [by apply reachable_internal_paths|done].
Qed.

Lemma internal_exit_only_forgets_witness :
  let r := state_of (step (mkInput (fork_of 200) [] (failing_os busboxScript))
                       (fresh statusLaunched)) in
  procs (state_of (handleEvent (exit_of 200 200) [] (failing_os busboxScript) r))
  = procs r.
Proof.
  cbn zeta.
  refine (proj1 (proj2 (internal_exit_only_forgets (exit_of 200 200) []
            (failing_os busboxScript) _ busboxScript _ _ _))).
  - apply reach_step, reach_fresh.
  - split; reflexivity.
  - reflexivity.
Defined.

(** ** Decoding *)

(** [parseNetlinkMessage] hands the decoded events, at most one, to
    the switch. *)
Lemma parseNetlinkMessage_decodeEvents m progs env r :
  parseNetlinkMessage m progs env r =
  match decodeEvents m with
  | [] => (tt, r, [])
  | hdr :: _ => handleEvent hdr progs env r
  end.
Proof.
  unfold parseNetlinkMessage, decodeEvents.
  destruct (nl_Type (Header m) =? NLMSG_DONE)%N; [|done]. cbn zeta.
  set (hdr := (binary_Read sizeof_ProcEventHeader _ _ _).1).
  destruct (is_event hdr) eqn:E; [reflexivity|].
  unfold is_event in E. apply orb_false_iff in E as [E E3].
  apply orb_false_iff in E as [E1 E2].
  apply handleEvent_other; unfold is_fork_or_exec, is_exit;
    rewrite <- !N.eqb_eq; rewrite ?E1, ?E2, ?E3; [intros [?|?]; done | done].
Qed.

Lemma binary_Read_short {A} size (decode : list byte → A) old buf :
  (length buf < size)%nat → binary_Read size decode old buf = (old, []).
Proof.
  intros H. unfold binary_Read. apply Nat.leb_gt in H. by rewrite H.
Qed.

Lemma binary_Read_full {A} size (decode : list byte → A) old buf :
  (size ≤ length buf)%nat →
  binary_Read size decode old buf = (decode (take size buf), drop size buf).
Proof.
  intros H. unfold binary_Read. apply Nat.leb_le in H. by rewrite H.
Qed.

(** A message too short for both headers leaves the event header at
    its zero value. *)
Lemma short_data_zero_header buf :
  (length buf < sizeof_CnMsg + sizeof_ProcEventHeader)%nat →
  (binary_Read sizeof_ProcEventHeader decode_ProcEventHeader zero_ProcEventHeader
     (binary_Read sizeof_CnMsg decode_CnMsg zero_CnMsg buf).2).1
  = zero_ProcEventHeader.
Proof.
  intros H. destruct (le_lt_dec sizeof_CnMsg (length buf)) as [L|L].
  - rewrite (binary_Read_full sizeof_CnMsg) by done. cbn [snd].
    rewrite binary_Read_short; [done|]. rewrite length_drop.
    unfold sizeof_CnMsg, sizeof_ProcEventHeader in *. lia.
  - rewrite (binary_Read_short sizeof_CnMsg) by done. cbn [snd].
    by rewrite binary_Read_short by (unfold sizeof_ProcEventHeader; cbn; lia).
Qed.

(** C8.  A message whose type is not [NLMSG_DONE], or whose data is
    shorter than the connector header plus the event header, decodes
    to no event; handling it returns normally with the registry as it
    was and without any call to the outside. *)
Theorem short_or_foreign_message_skipped m progs env r :
  nl_Type (Header m) ≠ NLMSG_DONE ∨
  (length (Data m) < sizeof_CnMsg + sizeof_ProcEventHeader)%nat →
  decodeEvents m = [] ∧ parseNetlinkMessage m progs env r = (tt, r, []).
Proof.
  intros H.
  assert (decodeEvents m = []) as Hd.
  { unfold decodeEvents. destruct H as [H|H].
    - apply N.eqb_neq in H. by rewrite H.
    - destruct (nl_Type (Header m) =? NLMSG_DONE)%N; [|done]. cbn zeta.
      by rewrite short_data_zero_header. }
  split; [exact Hd|]. by rewrite parseNetlinkMessage_decodeEvents, Hd.
Qed.

Lemma short_or_foreign_message_skipped_witness :
  parseNetlinkMessage
    {| Header := mkNlMsghdr 36 NLMSG_DONE 0 0 0;
       Data := [x01; x00; x00; x00; x01; x00; x00; x00; x00; x00; x00; x00;
                x00; x00; x00; x00; x18; x00; x00; x00;
                x01; x00; x00; x00; x00; x00; x00; x00] |}%byte
    [] (failing_os "/bin/app") (fresh statusLaunched)
  = (tt, fresh statusLaunched, []).
Proof.
  refine (proj2 (short_or_foreign_message_skipped _ _ _ _ _)).
  right. unfold sizeof_CnMsg, sizeof_ProcEventHeader. cbn. lia.
Defined.

(** ** Receiving *)

Lemma recv_accepts_kernel_only parse rf ms :
  recv parse rf = Ok ms → ∃ sa, rf_from rf = Some (Netlink sa) ∧ sa_Pid sa = 0%N.
Proof.
  unfold recv. destruct (rf_from rf) as [[sa|]|]; [|done..].
  destruct (N.eqb_spec (sa_Pid sa) 0); [|done]. eauto.
Qed.

(** C9.  When the sender address of a datagram is missing, is not a
    netlink address, or is a netlink address with a pid other than 0,
    [recv] fails, and the loop only logs a warning: nothing is parsed
    or dispatched and the registry stays as it was. *)
Theorem recv_rejects_other_senders parse rf progs env r :
  (∀ sa, rf_from rf = Some (Netlink sa) → sa_Pid sa ≠ 0%N) →
  recv parse rf = Err "can not create netlink sockaddr" ∧
  listenOnce parse rf progs env r =
    (tt, r, [Log LogWarn "error receiving netlink message: %s"]).
Proof.
  intros H.
  assert (recv parse rf = Err "can not create netlink sockaddr") as E.
  { unfold recv. destruct (rf_from rf) as [[sa|]|]; [|done..].
    specialize (H sa eq_refl). apply N.eqb_neq in H. by rewrite H. }
  split; [exact E|]. unfold listenOnce. by rewrite E.
Qed.

Lemma recv_rejects_other_senders_witness :
  listenOnce (fun _ => Ok [])
    {| rf_nr := 60;
       rf_from := Some (Netlink {| sa_Family := 16; sa_Pad := 0; sa_Pid := 4242;
                                   sa_Groups := 1 |});
       rf_err := None; rf_p := [] |}
    [] (fun _ => failing_os "/bin/app") (fresh statusLaunched)
  = (tt, fresh statusLaunched, [Log LogWarn "error receiving netlink message: %s"]).
Proof.
  refine (proj2 (recv_rejects_other_senders _ _ _ _ _ _)).
  intros sa [= <-]. cbn. lia.
Defined.

(** ** The shutdown sequence *)

(** C5.  Entered with an init status other than [statusPoweroff],
    [shutdown] ends with the reboot call for [cmd], made once, whatever
    the process roster, the signals, the sysrq writes and the boot-disk
    lookup answer; the init status is [statusPoweroff] afterwards. *)
Theorem shutdown_always_reboots cmd timeout env r :
  initStatus r ≠ statusPoweroff →
  let x := shutdown cmd timeout env r in
  (∃ before, trace_of x = before ++ [Reboot cmd (os_Reboot env cmd)] ∧
             count is_reboot before = 0%nat) ∧
  count is_reboot (trace_of x) = 1%nat ∧
  initStatus (state_of x) = statusPoweroff.
Proof.
  intros H. cbn zeta. rewrite shutdown_entered by done.
  destruct (shutdown_body_trace timeout env (set_initStatus statusPoweroff r))
    as (Hr & _ & _).
  pose proof (shutdown_body_state timeout env (set_initStatus statusPoweroff r)) as Hs.
  unfold trace_of, state_of in *. cbn [fst snd] in *.
  split; [eauto|]. split.
  - rewrite count_app, Hr. reflexivity.
  - by rewrite Hs.
Qed.

Lemma shutdown_always_reboots_witness :
  count is_reboot
    (trace_of (shutdown LINUX_REBOOT_CMD_RESTART 500 (failing_os "/bin/app")
                 (fresh statusLaunched))) = 1%nat.
Proof.
  refine (proj1 (proj2 (shutdown_always_reboots LINUX_REBOOT_CMD_RESTART 500
                          (failing_os "/bin/app") (fresh statusLaunched) _))).
  cbn. unfold statusLaunched, statusPoweroff. lia.
Defined.

(** Everything fails and the reboot call is still the last one. *)
Example shutdown_all_failing :
  trace_of (shutdown LINUX_REBOOT_CMD_POWER_OFF 0 (failing_os "/bin/app")
              (fresh statusLaunched))
  = [Log LogAlways "shutting down applications";
     Log LogError "can not get processes: %s";
     Sleep 0;
     Log LogAlways "shutting down in 3..."; Sleep 1000;
     Log LogAlways "shutting down in 2..."; Sleep 1000;
     Log LogAlways "shutting down in 1..."; Sleep 1000;
     WriteFile sysrq_trigger "s" false;
     WriteFile sysrq_trigger "u" false;
     Log LogError "could not get disk name: %s";
     Reboot LINUX_REBOOT_CMD_POWER_OFF false].
Proof. reflexivity. Qed.

(** Called again afterwards, [shutdown] returns at once. *)
Lemma shutdown_twice_in_a_row cmd1 t1 cmd2 t2 env1 env2 r :
  shutdown cmd2 t2 env2 (state_of (shutdown cmd1 t1 env1 r))
  = (tt, set_initStatus statusPoweroff r, []).
Proof.
  rewrite shutdown_state. by rewrite shutdown_guarded.
Qed.

(** ** The two maps *)

Lemma reachable_run evs r : reachable r → reachable (state_of (run evs r)).
Proof.
  revert r. induction evs as [|i evs IH]; intros r Hr; [done|].
  rewrite run_cons. unfold state_of at 1. cbn [fst snd].
  by apply IH, reach_step.
Qed.

Lemma disjoint_maps_step i r :
  disjoint_maps r → ¬ crossing i r → disjoint_maps (state_of (step i r)).
Proof.
  intros Hr Hc. unfold step.
  destruct (event_kinds (in_hdr i)) as [K|[K|[K1 K2]]].
  - rewrite handleEvent_fork_exec by done.
    destruct (os_Readlink _ _) as [st|] eqn:Hst; [|done].
    unfold state_of. cbn [fst snd].
    assert (¬ (if to_procs st
               then is_Some (internal r !! ProcessTgid (in_hdr i))
               else is_Some (procs r !! ProcessTgid (in_hdr i)))) as Hn.
    { intros H. apply Hc. split; [done|]. eauto. }
    destruct (to_procs st); intros k; cbn;
      destruct (decide (k = ProcessTgid (in_hdr i))) as [->|Hk].
    + right. by apply eq_None_not_Some.
    + rewrite lookup_insert_ne by done. apply Hr.
    + left. by apply eq_None_not_Some.
    + rewrite lookup_insert_ne by done. apply Hr.
  - rewrite handleEvent_exit by done.
    destruct (handleExit_maps (in_hdr i) (in_progs i) (in_env i) r) as [Hp Hi].
    cbn zeta in Hp, Hi. intros k. destruct (Hr k) as [H|H].
    + left. destruct Hp as [-> | ->]; [done|].
      rewrite lookup_delete. by case_decide.
    + right. destruct Hi as [-> | ->]; [done|].
      rewrite lookup_delete. by case_decide.
  - by rewrite handleEvent_other.
Qed.

(** C3, as the code has it.  A fork or exec only inserts into one map
    and never removes from the other, and an exit only deletes.  So the
    two maps stay disjoint along every event sequence in which no fork
    or exec resolves a pid to a path of the other class than the map
    that holds it at that moment. *)
Theorem maps_disjoint_without_crossing evs r :
  disjoint_maps r →
  no_crossing evs r →
  disjoint_maps (state_of (run evs r)).
Proof.
  revert r. induction evs as [|i evs IH]; intros r Hr Hn; [done|].
  destruct Hn as [Hc Hn]. rewrite run_cons. unfold state_of at 1. cbn [fst snd].
  apply IH; [by apply disjoint_maps_step | done].
Qed.

Lemma disjoint_maps_fresh status : disjoint_maps (fresh status).
Proof. intros k. left. apply lookup_empty. Qed.

Lemma maps_disjoint_without_crossing_witness :
  disjoint_maps
    (state_of (run [app_event (fork_of 100) "/usr/bin/app";
                    app_event (exec_of 100) "/usr/bin/worker";
                    app_event (exit_of 100 100) "/usr/bin/worker"]
                 (fresh statusLaunching))).
Proof.
  apply maps_disjoint_without_crossing.
  - apply disjoint_maps_fresh.
  - cbn [no_crossing]. repeat split.
    + intros (_ & st & [= <-] & H). vm_compute in H. by destruct H.
    + intros (_ & st & [= <-] & H). vm_compute in H. by destruct H.
    + intros ([H|H] & _); vm_compute in H; discriminate.
Defined.

(** C3 as stated fails on the launch of an application: the fork is
    seen while the child still runs "/vorteil/vinitd" and enters
    [internal], the exec to "/usr/bin/app" enters [procs], and pid 100
    is in both maps. *)
Lemma launch_puts_pid_in_both_maps :
  let r := state_of (run launch_of_app (fresh statusLaunching)) in
  reachable r ∧
  procs r !! 100%N = Some 100%N ∧
  internal r !! 100%N = Some "/vorteil/vinitd" ∧
  ¬ disjoint_maps r.
Proof.
  cbn zeta. split; [apply reachable_run, reach_fresh|].
  split; [reflexivity|]. split; [reflexivity|].
  intros H. by destruct (H 100%N).
Qed.

(** ** Exits once nothing is tracked *)

Lemma shutdown_trace_counts cmd timeout env r :
  count is_trigger (trace_of (shutdown cmd timeout env r)) = 0%nat ∧
  count is_reboot (trace_of (shutdown cmd timeout env r))
    = if initStatus r =? statusPoweroff then 0%nat else 1%nat.
Proof.
  destruct (Z.eqb_spec (initStatus r) statusPoweroff) as [E|E].
  - by rewrite shutdown_guarded.
  - rewrite shutdown_entered by done.
    destruct (shutdown_body_trace timeout env (set_initStatus statusPoweroff r))
      as (Hr & Ht & _).
    unfold trace_of in *. cbn [fst snd]. by rewrite !count_app, Hr, Ht.
Qed.

(** With [procs] empty and the init status at [statusLaunched] or
    above, an exit event changes neither, and the only line it can
    write is that of the early return. *)
Lemma exit_when_nothing_tracked i r :
  is_exit (in_hdr i) →
  procs r = ∅ → statusLaunched ≤ initStatus r →
  let x := step i r in
  procs (state_of x) = ∅ ∧
  initStatus (state_of x) = initStatus r ∧
  (internal r = ∅ → internal (state_of x) = ∅) ∧
  Forall (λ e, e = unregistered_log) (trace_of x) ∧
  (is_leader_exit (in_hdr i) → internal_at r (ProcessTgid (in_hdr i)) = "" →
   trace_of x = [unregistered_log]).
Proof.
  intros Hx Hp Hs. cbn zeta. unfold step. rewrite handleEvent_exit by done.
  destruct (N.eq_dec (ProcessTgid (in_hdr i)) (ProcessPid (in_hdr i))) as [L|L].
  - symmetry in L.
    destruct (string_dec (internal_at r (ProcessTgid (in_hdr i))) "") as [I|I].
    + rewrite handleExit_unregistered by done.
      unfold state_of, trace_of. cbn [fst snd]. repeat split; try done.
      by repeat constructor.
    + rewrite handleExit_internal by done.
      unfold state_of, trace_of. cbn [fst snd]. repeat split; try done.
      cbn. intros ->. by rewrite delete_empty.
  - rewrite handleExit_thread by done.
    unfold state_of, trace_of. cbn [fst snd]. repeat split; try done.
    intros [_ E]. by rewrite E in L.
Qed.

Lemma exits_when_nothing_tracked later r :
  Forall (λ i, is_exit (in_hdr i)) later →
  procs r = ∅ → statusLaunched ≤ initStatus r →
  let y := run later r in
  procs (state_of y) = ∅ ∧
  initStatus (state_of y) = initStatus r ∧
  (internal r = ∅ → internal (state_of y) = ∅) ∧
  Forall (λ e, e = unregistered_log) (trace_of y).
Proof.
  intros Hl. revert r. induction Hl as [|i later Hi _ IH]; intros r Hp Hs.
  - cbn zeta. rewrite run_nil. repeat split; first [done | constructor].
  - cbn zeta. rewrite run_cons.
    destruct (exit_when_nothing_tracked i r Hi Hp Hs) as (Hp1 & Hs1 & Hi1 & Ht1 & _).
    destruct (IH (state_of (step i r)) Hp1 ltac:(lia)) as (Hp2 & Hs2 & Hi2 & Ht2).
    unfold state_of, trace_of in *. cbn [fst snd] in *.
    repeat split; [done|congruence|auto|]. by apply Forall_app.
Qed.

Lemma only_unregistered_logs t :
  Forall (λ e, e = unregistered_log) t →
  count is_trigger t = 0%nat ∧ count is_reboot t = 0%nat ∧ decision t = NoAction.
Proof.
  intros H.
  assert (count is_trigger t = 0%nat) as Ht.
  { apply Forall_count_0. eapply Forall_impl; [exact H|]. by intros e ->. }
  repeat split; [done| |].
  - apply Forall_count_0. eapply Forall_impl; [exact H|]. by intros e ->.
  - unfold decision. apply count_0_existsb in Ht. by rewrite Ht.
Qed.







(** ** From registration to the one shutdown *)

Lemma registers_app_step i r :
  registers_app i →
  step i r =
  (tt, set_procs (insert (ProcessTgid (in_hdr i)) (ProcessTgid (in_hdr i))) r,
   [Log LogDebug "add application %s, pid %d, procs %d"]).
Proof.
  intros (K & st & Hst & Hto). unfold step.
  by rewrite handleEvent_fork_exec, Hst, Hto.
Qed.

(** After forks and execs of applications, [procs] holds exactly their
    tgids next to what it held before. *)
Lemma registered_apps forks r :
  Forall registers_app forks →
  let r' := state_of (run forks r) in
  internal r' = internal r ∧
  initStatus r' = initStatus r ∧
  ∀ k, is_Some (procs r' !! k) ↔
       is_Some (procs r !! k) ∨ ∃ i, i ∈ forks ∧ ProcessTgid (in_hdr i) = k.
Proof.
  intros H. revert r. induction H as [|i forks Hi _ IH]; intros r; cbn zeta.
  - rewrite run_nil. repeat split; try done; [by left|].
    intros [?|(i & Hi & _)]; [done|]. by apply not_elem_of_nil in Hi.
  - rewrite run_cons, registers_app_step by done.
    unfold state_of in *. cbn [fst snd] in *.
    destruct (IH (set_procs (insert (ProcessTgid (in_hdr i)) (ProcessTgid (in_hdr i))) r))
      as (Hi1 & Hs1 & Hk1).
    repeat split; [done|done| |].
    + intros Hk. apply Hk1 in Hk as [Hk|(j & Hj & Hjk)].
      * cbn in Hk. rewrite lookup_insert in Hk. case_decide; [|by left].
        right. exists i. split; [apply elem_of_cons; by left|done].
      * right. exists j. split; [apply elem_of_cons; by right|done].
    + intros Hk. apply Hk1. destruct Hk as [Hk|(j & Hj & Hjk)].
      * left. cbn. rewrite lookup_insert. by case_decide.
      * apply elem_of_cons in Hj as [->|Hj].
        -- left. cbn. rewrite lookup_insert. by rewrite decide_True.
        -- right. eauto.
Qed.

(** Exits draining a non-empty [procs]: the one that empties it calls
    [shutdown], and the others do not. *)
Lemma drained_once exits r :
  Forall (λ i, is_leader_exit (in_hdr i) ∧ all_started (in_progs i)) exits →
  internal r = ∅ →
  statusLaunched ≤ initStatus r →
  procs r ≠ ∅ →
  (∀ k, is_Some (procs r !! k) → ∃ i, i ∈ exits ∧ ProcessTgid (in_hdr i) = k) →
  let x := run exits r in
  procs (state_of x) = ∅ ∧
  internal (state_of x) = ∅ ∧
  initStatus (state_of x) = statusPoweroff ∧
  count is_trigger (trace_of x) = 1%nat ∧
  count is_reboot (trace_of x) = if initStatus r =? statusPoweroff then 0%nat else 1%nat.
Proof.
  intros H. revert r. induction H as [|i exits [[Hx Hl] Hready] Hexits IH];
    intros r Hi Hs Hp Hcover; cbn zeta.
  - exfalso. apply Hp. apply map_eq. intros k. rewrite lookup_empty.
    destruct (procs r !! k) eqn:E; [|done].
    destruct (Hcover k) as (i & Hin & _); [by rewrite E|].
    by apply not_elem_of_nil in Hin.
  - assert (internal_at r (ProcessTgid (in_hdr i)) = "") as Hat.
    { unfold internal_at. by rewrite Hi, lookup_empty. }
    rewrite run_cons. unfold step. rewrite handleEvent_exit by done.
    destruct (decide (delete (ProcessTgid (in_hdr i)) (procs r) = ∅)) as [E|E].
    + rewrite handleExit_shutdown by auto.
      set (r1 := set_procs (delete (ProcessTgid (in_hdr i))) r).
      pose proof (shutdown_state LINUX_REBOOT_CMD_POWER_OFF 0 (in_env i) r1) as Hst.
      destruct (shutdown_trace_counts LINUX_REBOOT_CMD_POWER_OFF 0 (in_env i) r1)
        as [Ht Hr].
      assert (Forall (λ i, is_exit (in_hdr i)) exits) as Hex.
      { eapply Forall_impl; [exact Hexits|]. by intros j [[? _] _]. }
      destruct (exits_when_nothing_tracked exits (set_initStatus statusPoweroff r1) Hex)
        as (Hp2 & Hs2 & Hi2 & Ht2); [done|cbn; unfold statusLaunched, statusPoweroff; lia|].
      destruct (only_unregistered_logs _ Ht2) as (Hc1 & Hc2 & _).
      unfold state_of, trace_of in *. cbn [fst snd] in *. rewrite Hst.
      repeat split; [done|by apply Hi2|done| |].
      * rewrite !count_app, Ht, Hc1. reflexivity.
      * rewrite !count_app, Hr, Hc2. change (initStatus r1) with (initStatus r).
        by destruct (initStatus r =? statusPoweroff).
    + rewrite handleExit_remaining by auto.
      set (r1 := set_procs (delete (ProcessTgid (in_hdr i))) r).
      destruct (IH r1) as (Hp2 & Hi2 & Hs2 & Ht2 & Hr2); [done..| |].
      { intros k Hk. cbn in Hk. rewrite lookup_delete in Hk.
        case_decide as Hne; [by destruct Hk|].
        destruct (Hcover k Hk) as (j & Hj & Hjk).
        apply elem_of_cons in Hj as [->|Hj]; [congruence|eauto]. }
      unfold state_of, trace_of in *. cbn [fst snd] in *.
      repeat split; [done..| |].
      * rewrite count_app, Ht2. reflexivity.
      * rewrite count_app, Hr2. reflexivity.
Qed.

(** C2.  Start from the empty maps, register applications by forks and
    execs (at least one), let the init status reach [statusLaunched] or
    more, then deliver leader exits that cover every registered pid,
    each with a roster whose programs all have their process handle.
    [procs] is empty again and [handleExit] has reached the call of
    [shutdown] exactly once; whatever exit events follow, the count
    stays at one.  The reboot call is made once as well (not at all
    when the init status already was [statusPoweroff], where the one
    call of [shutdown] returns at its guard). *)
Theorem one_shutdown_after_all_exits forks exits later status0 status :
  forks ≠ [] →
  Forall registers_app forks →
  Forall (λ i, is_leader_exit (in_hdr i) ∧ all_started (in_progs i)) exits →
  (∀ i, i ∈ forks → ∃ j, j ∈ exits ∧ ProcessTgid (in_hdr j) = ProcessTgid (in_hdr i)) →
  Forall (λ i, is_exit (in_hdr i)) later →
  statusLaunched ≤ status →
  let r1 := set_initStatus status (state_of (run forks (fresh status0))) in
  let x := run (exits ++ later) r1 in
  procs (state_of (run exits r1)) = ∅ ∧
  procs (state_of x) = ∅ ∧
  count is_trigger (trace_of (run exits r1)) = 1%nat ∧
  count is_trigger (trace_of x) = 1%nat ∧
  count is_reboot (trace_of x) = if status =? statusPoweroff then 0%nat else 1%nat.
Proof.
  intros Hne Hforks Hexits Hcover Hlater Hs. cbn zeta.
  destruct (registered_apps forks (fresh status0) Hforks) as (Hi & _ & Hk).
  set (r1 := set_initStatus status (state_of (run forks (fresh status0)))).
  assert (procs r1 ≠ ∅) as Hp.
  { destruct forks as [|i forks]; [done|]. intros E.
    assert (is_Some (procs r1 !! ProcessTgid (in_hdr i))) as [v Hv].
    { apply Hk. right. exists i. split; [apply elem_of_cons; by left|done]. }
    by rewrite E, lookup_empty in Hv. }
  destruct (drained_once exits r1 Hexits) as (Hp1 & Hi1 & Hs1 & Ht1 & Hr1);
    [exact Hi | exact Hs | exact Hp | |].
  { intros k Hin. apply Hk in Hin as [Hin|(i & Hin & <-)]; [|by apply Hcover].
    cbn in Hin. rewrite lookup_empty in Hin. by destruct Hin. }
  destruct (exits_when_nothing_tracked later (state_of (run exits r1)) Hlater Hp1)
    as (Hp2 & _ & _ & Ht2).
  { rewrite Hs1. unfold statusLaunched, statusPoweroff. lia. }
  destruct (only_unregistered_logs _ Ht2) as (Hc1 & Hc2 & _).
  destruct (run_app exits later r1) as [-> ->].
  rewrite !count_app, Ht1, Hr1, Hc1, Hc2.
  repeat split; done.
Qed.

Lemma one_shutdown_after_all_exits_witness :
  let r1 := set_initStatus statusLaunched
              (state_of (run [app_event (fork_of 100) "/usr/bin/app";
                              app_event (exec_of 101) "/vorteil/busybox"]
                           (fresh statusLaunching))) in
  count is_trigger
    (trace_of (run ([app_event (exit_of 101 101) "/usr/bin/app";
                     app_event (exit_of 100 100) "/usr/bin/app"]
                    ++ [app_event (exit_of 100 100) "/usr/bin/app"]) r1)) = 1%nat.
Proof.
  cbn zeta.
  refine (proj1 (proj2 (proj2 (proj2
    (one_shutdown_after_all_exits
       [app_event (fork_of 100) "/usr/bin/app"; app_event (exec_of 101) "/vorteil/busybox"]
       [app_event (exit_of 101 101) "/usr/bin/app"; app_event (exit_of 100 100) "/usr/bin/app"]
       [app_event (exit_of 100 100) "/usr/bin/app"]
       statusLaunching statusLaunched _ _ _ _ _ _))))).
  - done.
  - constructor; [|constructor; [|constructor]].
    + split; [by left|]. exists "/usr/bin/app". split; reflexivity.
    + split; [by right|]. exists "/vorteil/busybox". split; reflexivity.
  - constructor; [|constructor; [|constructor]];
      (split; [split|]; reflexivity).
  - intros i Hi. apply elem_of_cons in Hi as [->|Hi].
    + exists (app_event (exit_of 100 100) "/usr/bin/app").
      split; [|reflexivity]. apply elem_of_cons. right. apply elem_of_cons. by left.
    + apply elem_of_cons in Hi as [->|Hi]; [|by apply not_elem_of_nil in Hi].
      exists (app_event (exit_of 101 101) "/usr/bin/app").
      split; [|reflexivity]. apply elem_of_cons. by left.
  - constructor; [reflexivity|constructor].
  - unfold statusLaunched. lia.
Defined.

(** The spec's scenario on the code: it only works with an executable
    outside "/vorteil/". *)
Example scenario_fork_exit :
  let r1 := state_of (step (app_event (fork_of 100) "/usr/bin/app") (fresh statusLaunched)) in
  let x := step (app_event (exit_of 100 100) "/usr/bin/app") r1 in
  procs r1 = {[ 100%N := 100%N ]} ∧
  procs (state_of x) = ∅ ∧
  decision (trace_of x) = TriggerShutdown ∧
  initStatus (state_of x) = statusPoweroff.
Proof. cbn zeta. repeat split; reflexivity. Qed.

(** ** Two callers of [shutdown] *)

Lemma caller_step_eq env c r :
  caller_step env c r =
  match c_pc c with
  | AtGuard =>
      (goto c (if initStatus r =? statusPoweroff then Returned else AtSet), r, [])
  | AtSet => (goto c AtBody, set_initStatus statusPoweroff r, [])
  | AtBody => (goto c AtReboot, r, trace_of (shutdown_body (c_timeout c) env r))
  | AtReboot => (goto c Returned, r, [Reboot (c_cmd c) (os_Reboot env (c_cmd c))])
  | Returned => (c, r, [])
  end.
Proof.
  unfold caller_step. destruct (c_pc c); try reflexivity.
  - unfold_M. by destruct (initStatus r =? statusPoweroff).
  - pose proof (shutdown_body_state (c_timeout c) env r) as Hs.
    unfold_M. by rewrite Hs, app_nil_r.
Qed.

Lemma interleave_cons who sched env a b r :
  interleave (who :: sched) env a b r =
  (fst (fst (interleave sched env
               (if who then a else fst (fst (caller_step env a r)))
               (if who then fst (fst (caller_step env b r)) else b)
               (snd (fst (caller_step env (if who then b else a) r))))),
   snd (fst (interleave sched env
               (if who then a else fst (fst (caller_step env a r)))
               (if who then fst (fst (caller_step env b r)) else b)
               (snd (fst (caller_step env (if who then b else a) r))))),
   snd (caller_step env (if who then b else a) r) ++
   snd (interleave sched env
          (if who then a else fst (fst (caller_step env a r)))
          (if who then fst (fst (caller_step env b r)) else b)
          (snd (fst (caller_step env (if who then b else a) r))))).
Proof. by destruct who. Qed.

Ltac sched_step :=
  rewrite interleave_cons, !caller_step_eq;
  cbn [fst snd c_pc c_cmd c_timeout goto entering initStatus set_initStatus].

(** A caller that is not interrupted does what [shutdown] does. *)
Lemma caller_alone_is_shutdown env cmd timeout b r :
  let x := interleave [false; false; false; false] env (entering cmd timeout) b r in
  state_of x = state_of (shutdown cmd timeout env r) ∧
  trace_of x = trace_of (shutdown cmd timeout env r) ∧
  c_pc (fst (fst x)).1 = Returned ∧
  (fst (fst x)).2 = b.
Proof.
  cbn zeta. destruct (Z.eqb_spec (initStatus r) statusPoweroff) as [E|E].
  - rewrite shutdown_guarded by done.
    apply Z.eqb_eq in E. sched_step. rewrite E. by do 3 sched_step.
  - rewrite shutdown_entered by done.
    pose proof (shutdown_body_state timeout env (set_initStatus statusPoweroff r)) as Hs.
    apply Z.eqb_neq in E. sched_step. rewrite E. do 3 sched_step.
    unfold state_of, trace_of in *. cbn [interleave ret fst snd app].
    by rewrite Hs.
Qed.

(** One after the other, the second caller returns at the guard. *)
Lemma second_caller_after_first env cmd1 t1 cmd2 t2 r :
  let x := interleave [false; false; false; false; true] env
             (entering cmd1 t1) (entering cmd2 t2) r in
  trace_of x = trace_of (shutdown cmd1 t1 env r) ∧
  c_pc (fst (fst x)).2 = Returned.
Proof.
  cbn zeta. destruct (Z.eqb_spec (initStatus r) statusPoweroff) as [E|E].
  - rewrite shutdown_guarded by done.
    apply Z.eqb_eq in E. sched_step. rewrite E. do 4 sched_step. by rewrite E.
  - rewrite shutdown_entered by done.
    apply Z.eqb_neq in E. sched_step. rewrite E. do 4 sched_step.
    unfold state_of, trace_of in *. cbn [interleave ret fst snd app].
    done.
Qed.

(** When both callers pass the guard before either assigns, both go
    through the whole sequence. *)
Lemma racing_callers env cmd1 t1 cmd2 t2 r :
  initStatus r ≠ statusPoweroff →
  let x := interleave [false; true; false; true; false; true; false; true] env
             (entering cmd1 t1) (entering cmd2 t2) r in
  trace_of x =
    trace_of (shutdown_body t1 env (set_initStatus statusPoweroff r))
    ++ trace_of (shutdown_body t2 env (set_initStatus statusPoweroff r))
    ++ [Reboot cmd1 (os_Reboot env cmd1); Reboot cmd2 (os_Reboot env cmd2)] ∧
  count is_kill_round (trace_of x) = 2%nat ∧
  count is_reboot (trace_of x) = 2%nat.
Proof.
  intros E. cbn zeta.
  assert (trace_of (interleave [false; true; false; true; false; true; false; true] env
                      (entering cmd1 t1) (entering cmd2 t2) r) =
          trace_of (shutdown_body t1 env (set_initStatus statusPoweroff r))
          ++ trace_of (shutdown_body t2 env (set_initStatus statusPoweroff r))
          ++ [Reboot cmd1 (os_Reboot env cmd1); Reboot cmd2 (os_Reboot env cmd2)]) as ->.
  { apply Z.eqb_neq in E. sched_step. rewrite E. sched_step. rewrite E.
    do 6 sched_step. unfold trace_of. cbn [interleave ret fst snd app]. done. }
  destruct (shutdown_body_trace t1 env (set_initStatus statusPoweroff r)) as (R1 & _ & K1).
  destruct (shutdown_body_trace t2 env (set_initStatus statusPoweroff r)) as (R2 & _ & K2).
  split; [done|]. rewrite !count_app, R1, R2, K1, K2. done.
Qed.

(** C4 on the code.  The listener's call [shutdown(POWER_OFF, 0)] and a
    second call with a grace period, both started while the init status
    is [statusLaunched], scheduled so that each tests [initStatus]
    before the other assigns it: both callers signal the processes, and
    the reboot call is made twice. *)
Theorem racing_shutdown_runs_twice :
  let x := interleave [false; true; false; true; false; true; false; true]
             (busy_os "/usr/bin/app")
             (entering LINUX_REBOOT_CMD_POWER_OFF 0)
             (entering LINUX_REBOOT_CMD_POWER_OFF 10000)
             (fresh statusLaunched) in
  count is_kill_round (trace_of x) = 2%nat ∧
  count is_reboot (trace_of x) = 2%nat ∧
  List.filter (λ e, is_kill e || is_reboot e) (trace_of x)
  = [Kill 104 SIGINT false; Kill 104 SIGTERM false;
     Kill 105 SIGINT false; Kill 105 SIGTERM false;
     Kill 104 SIGINT false; Kill 104 SIGTERM false;
     Kill 105 SIGINT false; Kill 105 SIGTERM false;
     Reboot LINUX_REBOOT_CMD_POWER_OFF false;
     Reboot LINUX_REBOOT_CMD_POWER_OFF false].
Proof.
  cbn zeta. repeat split; reflexivity.
Qed.

(** * Further properties *)

(** ** The wire format *)

Lemma byte_of_to_N n : Byte.to_N (byte_of n) = (n mod 256)%N.
Proof.
  unfold byte_of. destruct (Byte.of_N (n mod 256)) as [b|] eqn:E.
  - by apply Byte.to_of_N in E.
  - apply Byte.of_N_None_iff in E.
    pose proof (N.mod_upper_bound n 256). lia.
Qed.

Lemma length_le_bytes w n : length (le_bytes w n) = w.
Proof. revert n. induction w as [|w IH]; intros n; cbn; by rewrite ?IH. Qed.

Lemma le_uint_le_bytes w n : le_uint (le_bytes w n) = (n mod 256 ^ N.of_nat w)%N.
Proof.
  revert n. induction w as [|w IH]; intros n.
  - cbn. by rewrite N.mod_1_r.
  - cbn [le_bytes le_uint]. rewrite byte_of_to_N, IH.
    rewrite Nat2N.inj_succ, N.pow_succ_r'.
    rewrite N.Div0.mod_mul_r. lia.
Qed.

Lemma le_uint_bound bs : (le_uint bs < 256 ^ N.of_nat (length bs))%N.
Proof.
  induction bs as [|b bs IH].
  - cbn. lia.
  - cbn [le_uint length]. rewrite Nat2N.inj_succ, N.pow_succ_r'.
    pose proof (Byte.to_N_bounded b). lia.
Qed.

Lemma field_le_bytes pre w n post :
  field (length pre) w (pre ++ le_bytes w n ++ post) = (n mod 256 ^ N.of_nat w)%N.
Proof.
  unfold field. rewrite drop_app_length.
  rewrite take_app_length' by (by rewrite length_le_bytes).
  apply le_uint_le_bytes.
Qed.

Lemma field_at off w n l pre post :
  l = pre ++ le_bytes w n ++ post → length pre = off → (n < 256 ^ N.of_nat w)%N →
  field off w l = n.
Proof.
  intros -> <- H. rewrite field_le_bytes. by apply N.mod_small.
Qed.

Lemma decode_encode_ProcEventHeader hdr extra :
  header_in_range hdr →
  decode_ProcEventHeader (encode_ProcEventHeader hdr ++ extra) = hdr.
Proof.
  destruct hdr as [w c t p g]. unfold header_in_range.
  cbn [What CPU Timestamp ProcessPid ProcessTgid]. intros (H1 & H2 & H3 & H4 & H5).
  unfold decode_ProcEventHeader, encode_ProcEventHeader.
  cbn [What CPU Timestamp ProcessPid ProcessTgid].
  f_equal.
  - by apply (field_at 0 4 w _ [] (le_bytes 4 c ++ le_bytes 8 t ++ le_bytes 4 p
                                     ++ le_bytes 4 g ++ extra));
      [cbn [app]; rewrite <- ?app_assoc|..].
  - by apply (field_at 4 4 c _ (le_bytes 4 w) (le_bytes 8 t ++ le_bytes 4 p
                                     ++ le_bytes 4 g ++ extra));
      [rewrite <- ?app_assoc|rewrite ?length_app, ?length_le_bytes|].
  - by apply (field_at 8 8 t _ (le_bytes 4 w ++ le_bytes 4 c)
                (le_bytes 4 p ++ le_bytes 4 g ++ extra));
      [rewrite <- ?app_assoc|rewrite ?length_app, ?length_le_bytes|].
  - by apply (field_at 16 4 p _ (le_bytes 4 w ++ le_bytes 4 c ++ le_bytes 8 t)
                (le_bytes 4 g ++ extra));
      [rewrite <- ?app_assoc|rewrite ?length_app, ?length_le_bytes|].
  - by apply (field_at 20 4 g _ (le_bytes 4 w ++ le_bytes 4 c ++ le_bytes 8 t
                                   ++ le_bytes 4 p) extra);
      [rewrite <- ?app_assoc|rewrite ?length_app, ?length_le_bytes|].
Qed.

(** X2.  Round trip.  A message of type [NLMSG_DONE] whose data is any 20
    bytes in the place of the connector header, then an event header in
    its little-endian layout, then anything, is handled as that event:
    the header is recovered field by field, the connector header is not
    looked at and trailing bytes are ignored. *)
Theorem parse_encoded_event h cn hdr extra progs env r :
  nl_Type h = NLMSG_DONE →
  length cn = sizeof_CnMsg →
  header_in_range hdr →
  parseNetlinkMessage
    {| Header := h; Data := cn ++ encode_ProcEventHeader hdr ++ extra |} progs env r
  = handleEvent hdr progs env r.
Proof.
  intros Ht Hcn Hr. unfold parseNetlinkMessage. cbn [Header Data]. rewrite Ht. cbn [N.eqb Pos.eqb NLMSG_DONE].
  change ((NLMSG_DONE =? NLMSG_DONE)%N) with true. cbn zeta iota.
  rewrite (binary_Read_full sizeof_CnMsg) by (rewrite length_app; lia).
  cbn [snd]. rewrite <- Hcn, drop_app_length.
  assert (length (encode_ProcEventHeader hdr) = sizeof_ProcEventHeader) as Hl.
  { unfold encode_ProcEventHeader. by rewrite !length_app, !length_le_bytes. }
  rewrite binary_Read_full by (rewrite length_app; lia). cbn [fst].
  rewrite <- Hl, take_app_length.
  rewrite <- (app_nil_r (encode_ProcEventHeader hdr)).
  by rewrite decode_encode_ProcEventHeader.
Qed.

Lemma parse_encoded_event_witness :
  state_of (parseNetlinkMessage
    {| Header := mkNlMsghdr 60 NLMSG_DONE 0 0 0;
       Data := encode_CnMsg send_cnMsg ++ encode_ProcEventHeader (fork_of 100) ++ [] |}
    [] (failing_os "/usr/bin/app") (fresh statusLaunching))
  = state_of (handleEvent (fork_of 100) [] (failing_os "/usr/bin/app") (fresh statusLaunching)).
Proof.
  rewrite (parse_encoded_event (mkNlMsghdr 60 NLMSG_DONE 0 0 0) (encode_CnMsg send_cnMsg)
             (fork_of 100) [] [] (failing_os "/usr/bin/app") (fresh statusLaunching)).
  - reflexivity.
  - reflexivity.
  - reflexivity.
  - unfold header_in_range. repeat split; reflexivity.
Defined.

(** X3.  The subscription message of [send] is 40 bytes long, which is the
    length its netlink header announces; the header carries
    [NLMSG_DONE] and the process id, the connector header the id
    {1, 1}, sequence 1 and payload length 4, and the payload is [msg]. *)
Theorem send_buffer_layout getpid msg :
  (msg < 2 ^ 32)%N →
  let buf := send_buffer getpid msg in
  length buf = 40%nat ∧
  field 0 4 buf = N.of_nat (length buf) ∧
  field 4 2 buf = NLMSG_DONE ∧
  field 12 4 buf = uint32_of_int getpid ∧
  decode_CnMsg (drop 16 buf) = send_cnMsg ∧
  field 36 4 buf = msg.
Proof.
  intros Hm. cbn zeta.
  assert (uint32_of_int getpid < 2 ^ 32)%N as Hp.
  { unfold uint32_of_int. pose proof (Z.mod_pos_bound getpid (2 ^ 32)). lia. }
  split; [reflexivity|]. split; [reflexivity|]. split; [reflexivity|].
  split; [|split; [reflexivity|]].
  - change (field 12 4 (send_buffer getpid msg))
      with (le_uint (le_bytes 4 (uint32_of_int getpid))).
    rewrite le_uint_le_bytes. by apply N.mod_small.
  - change (field 36 4 (send_buffer getpid msg)) with (le_uint (le_bytes 4 msg)).
    rewrite le_uint_le_bytes. by apply N.mod_small.
Qed.

Lemma send_buffer_layout_witness :
  field 36 4 (send_buffer 1 procCNMCASTListen) = procCNMCASTListen.
Proof.
  refine (proj2 (proj2 (proj2 (proj2 (proj2
    (send_buffer_layout 1 procCNMCASTListen _)))))).
  unfold procCNMCASTListen. lia.
Defined.

(** ** What one event does *)

Lemma count_0_Forall p (t : list effect) :
  count p t = 0%nat → Forall (λ e, p e = false) t.
Proof.
  intros H. apply count_0_existsb in H. induction t as [|e t IH]; [constructor|].
  cbn [existsb] in H. apply orb_false_iff in H as [He Ht]. constructor; auto.
Qed.

Lemma debug_logs_counts t :
  Forall (λ e, is_debug_log e = true) t →
  count is_trigger t = 0%nat ∧ count is_reboot t = 0%nat ∧ decision t = NoAction.
Proof.
  intros H.
  assert (count is_trigger t = 0%nat) as Ht.
  { apply Forall_count_0. eapply Forall_impl; [exact H|]. by intros [[]| | | | |]. }
  repeat split; [done| |].
  - apply Forall_count_0. eapply Forall_impl; [exact H|]. by intros [[]| | | | |].
  - unfold decision. apply count_0_existsb in Ht. by rewrite Ht.
Qed.

(** Either the event brings [handleExit] to the call of [shutdown], or
    it leaves the init status alone and writes debug lines only. *)
Lemma handleEvent_shutdown_or_not hdr progs env r :
  let x := handleEvent hdr progs env r in
  let r1 := set_procs (delete (ProcessTgid hdr)) r in
  (shuts_down hdr progs r ∧
   state_of x = set_initStatus statusPoweroff r1 ∧
   trace_of x = [Log LogDebug "remove app pid %d, procs %v";
                 Log LogAlways "no programs still running"]
                  ++ trace_of (shutdown LINUX_REBOOT_CMD_POWER_OFF 0 env r1)) ∨
  (¬ shuts_down hdr progs r ∧
   initStatus (state_of x) = initStatus r ∧
   Forall (λ e, is_debug_log e = true) (trace_of x)).
Proof.
  cbn zeta. unfold shuts_down, is_leader_exit.
  destruct (event_kinds hdr) as [K|[K|[K1 K2]]].
  - right. rewrite handleEvent_fork_exec by done.
    split; [intros [[Hx _] _]; destruct K as [K|K]; rewrite Hx in K; done|].
    destruct (os_Readlink _ _) as [st|]; unfold state_of, trace_of; cbn [fst snd].
    + split; [by destruct (to_procs st)|]. by repeat constructor.
    + split; [done|constructor].
  - rewrite handleEvent_exit by done.
    destruct (N.eq_dec (ProcessTgid hdr) (ProcessPid hdr)) as [L|L];
      [|right; rewrite handleExit_thread by done; split; [|split; [done|constructor]];
        intros [[_ E] _]; by rewrite E in L].
    symmetry in L.
    destruct (string_dec (internal_at r (ProcessTgid hdr)) "") as [I|I];
      [|right; rewrite handleExit_internal by done; split; [|split; [done|constructor]];
        by intros (_ & E & _)].
    destruct (decide (procs r = ∅)) as [P|P].
    { right. split; [by intros (_ & _ & E & _)|].
      destruct (Z_lt_dec (initStatus r) statusLaunched) as [S|S].
      - rewrite handleExit_launching by (auto; rewrite P; apply delete_empty).
        split; [done|]. by repeat constructor.
      - rewrite handleExit_unregistered by (done || lia).
        split; [done|]. by repeat constructor. }
    destruct (decide (delete (ProcessTgid hdr) (procs r) = ∅)) as [D|D];
      [|right; rewrite handleExit_remaining by auto;
        split; [by intros (_ & _ & _ & E & _)|split; [done|by repeat constructor]]].
    destruct (Z_lt_dec (initStatus r) statusLaunched) as [S|S];
      [right; rewrite handleExit_launching by auto;
       split; [intros (_ & _ & _ & _ & E & _); lia|split; [done|by repeat constructor]]|].
    destruct (existsb not_started progs) eqn:E;
      [right; rewrite handleExit_starting by (auto; lia);
       split; [intros (_ & _ & _ & _ & _ & E'); unfold all_started in E'; congruence
              |split; [done|by repeat constructor]]|].
    left. rewrite handleExit_shutdown by (auto; lia).
    unfold state_of at 1, trace_of at 1. cbn [fst snd].
    rewrite shutdown_state. repeat split; try done. lia.
  - right. rewrite handleEvent_other by done.
    split; [by intros [[Hx _] _]|]. split; [done|constructor].
Qed.

(** X4.  The handler decides to shut down exactly on a leader exit that is
    not an internal one and takes the last pid out of [procs], while
    the init status is [statusLaunched] or more and every program of
    the roster has its process handle; no other event does. *)
Theorem shutdown_decision_iff hdr progs env r :
  decision (trace_of (handleEvent hdr progs env r)) = TriggerShutdown ↔
  shuts_down hdr progs r.
Proof.
  destruct (handleEvent_shutdown_or_not hdr progs env r) as [(H & _ & Ht)|(H & _ & Ht)];
    cbn zeta in Ht.
  - split; [done|]. intros _. by rewrite Ht.
  - apply debug_logs_counts in Ht as (_ & _ & Hd). rewrite Hd. split; [done|tauto].
Qed.

(** X5.  A fork or exec only adds: the init status and every other key of
    both maps stay as they were, no key disappears, the only call to
    the outside is one debug line, and when the executable link does
    not resolve nothing happens at all. *)
Theorem fork_exec_only_adds hdr progs env r :
  is_fork_or_exec hdr →
  let x := handleEvent hdr progs env r in
  initStatus (state_of x) = initStatus r ∧
  dom (procs r) ⊆ dom (procs (state_of x)) ∧
  dom (internal r) ⊆ dom (internal (state_of x)) ∧
  (∀ k, k ≠ ProcessTgid hdr →
        procs (state_of x) !! k = procs r !! k ∧
        internal (state_of x) !! k = internal r !! k) ∧
  Forall (λ e, is_debug_log e = true) (trace_of x) ∧
  (os_Readlink env (proc_exe (ProcessTgid hdr)) = None → x = (tt, r, [])).
Proof.
  intros K. cbn zeta. rewrite handleEvent_fork_exec by done.
  destruct (os_Readlink _ _) as [st|]; unfold state_of, trace_of; cbn [fst snd].
  - destruct (to_procs st); cbn [procs internal initStatus set_procs set_internal];
      repeat split; try done; try (by repeat constructor);
      try (rewrite dom_insert; set_solver);
      try (by rewrite lookup_insert_ne).
  - repeat split; first [done | constructor].
Qed.

Lemma fork_exec_only_adds_witness :
  initStatus (state_of (handleEvent (exec_of 7) [] (failing_os "/vorteil/chronyd")
                          (fresh statusLaunching))) = statusLaunching.
Proof.
  refine (proj1 (fork_exec_only_adds (exec_of 7) [] (failing_os "/vorteil/chronyd")
                   (fresh statusLaunching) _)).
  by right.
Defined.

(** X6.  Forks and execs are told apart by nothing: two such events with
    the same tgid and the same resolved path do the same, whatever
    their kind, pid, cpu, timestamp or roster; and handling the second
    after the first changes nothing more. *)
Theorem fork_exec_by_tgid_and_path hdr1 hdr2 progs1 progs2 env1 env2 r :
  is_fork_or_exec hdr1 → is_fork_or_exec hdr2 →
  ProcessTgid hdr1 = ProcessTgid hdr2 →
  os_Readlink env1 (proc_exe (ProcessTgid hdr1))
    = os_Readlink env2 (proc_exe (ProcessTgid hdr2)) →
  handleEvent hdr1 progs1 env1 r = handleEvent hdr2 progs2 env2 r ∧
  state_of (handleEvent hdr2 progs2 env2 (state_of (handleEvent hdr1 progs1 env1 r)))
    = state_of (handleEvent hdr1 progs1 env1 r).
Proof.
  intros K1 K2 Ht Hl. rewrite !handleEvent_fork_exec by done.
  rewrite <- Hl, <- Ht.
  destruct (os_Readlink env1 _) as [st|]; [|done].
  unfold state_of. cbn [fst snd]. split; [done|].
  destruct (to_procs st); destruct r as [p i s];
    unfold set_procs, set_internal; cbn [procs internal initStatus];
    by rewrite insert_insert_eq.
Qed.

Lemma fork_exec_by_tgid_and_path_witness :
  handleEvent (fork_of 100) [] (failing_os "/usr/bin/app") (fresh statusLaunching)
  = handleEvent (exec_of 100) [starting] (busy_os "/usr/bin/app") (fresh statusLaunching).
Proof.
  refine (proj1 (fork_exec_by_tgid_and_path (fork_of 100) (exec_of 100) [] [starting]
                   (failing_os "/usr/bin/app") (busy_os "/usr/bin/app")
                   (fresh statusLaunching) _ _ _ _)).
  - by left.
  - by right.
  - reflexivity.
  - reflexivity.
Defined.

(** X7.  An exit only removes: both maps shrink or stay, at most one of
    them changes, and only at the exiting tgid. *)
Theorem exit_only_removes hdr progs env r :
  is_exit hdr →
  let r' := state_of (handleEvent hdr progs env r) in
  procs r' ⊆ procs r ∧
  internal r' ⊆ internal r ∧
  (procs r' = procs r ∨ internal r' = internal r) ∧
  (∀ k, k ≠ ProcessTgid hdr →
        procs r' !! k = procs r !! k ∧ internal r' !! k = internal r !! k).
Proof.
  intros K. cbn zeta. rewrite handleEvent_exit by done.
  destruct (handleExit_cases hdr progs env r) as [H|[H|[H|H]]];
    cbn zeta in H; rewrite H;
    cbn [procs internal set_procs set_internal set_initStatus];
    repeat split; try done; try apply delete_subseteq; auto;
    try (by rewrite lookup_delete_ne).
Qed.

Lemma exit_only_removes_witness :
  procs (state_of (handleEvent (exit_of 100 100) [starting] (failing_os "/usr/bin/app")
                     {| procs := {[ 100%N := 100%N; 101%N := 101%N ]}; internal := ∅;
                        initStatus := statusLaunched |}))
  ⊆ {[ 100%N := 100%N; 101%N := 101%N ]}.
Proof.
  refine (proj1 (exit_only_removes (exit_of 100 100) [starting] (failing_os "/usr/bin/app")
                   {| procs := {[ 100%N := 100%N; 101%N := 101%N ]}; internal := ∅;
                      initStatus := statusLaunched |} _)).
  reflexivity.
Defined.

(** ** What event sequences do *)

Lemma state_of_run_cons i evs r :
  state_of (run (i :: evs) r) = state_of (run evs (state_of (step i r))).
Proof. by rewrite run_cons. Qed.

Lemma trace_of_run_cons i evs r :
  trace_of (run (i :: evs) r)
  = trace_of (step i r) ++ trace_of (run evs (state_of (step i r))).
Proof. by rewrite run_cons. Qed.

Lemma shutdown_trace_reboots cmd timeout env r :
  Forall (λ e, is_reboot e = true → ∃ ok, e = Reboot cmd ok)
    (trace_of (shutdown cmd timeout env r)).
Proof.
  destruct (Z.eq_dec (initStatus r) statusPoweroff) as [E|E].
  - rewrite shutdown_guarded by done. constructor.
  - rewrite shutdown_entered by done. unfold trace_of at 1. cbn [fst snd].
    destruct (shutdown_body_trace timeout env (set_initStatus statusPoweroff r))
      as (Hr & _ & _).
    apply Forall_app. split.
    + eapply Forall_impl; [apply count_0_Forall, Hr|]. intros e He He'. congruence.
    + repeat constructor. eauto.
Qed.

(** One event: the init status, the shutdown calls and the reboots. *)
Lemma step_accounting i r :
  let x := step i r in
  ((initStatus (state_of x) = initStatus r ∧
    count is_trigger (trace_of x) = 0%nat ∧ count is_reboot (trace_of x) = 0%nat) ∨
   (initStatus (state_of x) = statusPoweroff ∧
    count is_trigger (trace_of x) = 1%nat ∧
    count is_reboot (trace_of x)
      = if initStatus r =? statusPoweroff then 0%nat else 1%nat)) ∧
  Forall (λ e, is_reboot e = true → ∃ ok, e = Reboot LINUX_REBOOT_CMD_POWER_OFF ok)
    (trace_of x).
Proof.
  cbn zeta. unfold step.
  destruct (handleEvent_shutdown_or_not (in_hdr i) (in_progs i) (in_env i) r)
    as [(_ & Hs & Ht)|(_ & Hs & Ht)]; cbn zeta in Hs, Ht.
  - rewrite Hs, Ht.
    destruct (shutdown_trace_counts LINUX_REBOOT_CMD_POWER_OFF 0 (in_env i)
                (set_procs (delete (ProcessTgid (in_hdr i))) r)) as [Hc Hr].
    split.
    + right. split; [done|]. rewrite !count_app, Hc, Hr. done.
    + apply Forall_app. split; [by repeat constructor|apply shutdown_trace_reboots].
  - destruct (debug_logs_counts _ Ht) as (Hc & Hr & _). split; [by left|].
    eapply Forall_impl; [apply count_0_Forall, Hr|]. intros e He He'. congruence.
Qed.

(** X8.  Over any sequence of events the listener changes the init status
    only by shutting down: it is untouched as long as the call of
    [shutdown] was never reached, and is [statusPoweroff] once it
    was. *)
Theorem status_changes_only_by_shutdown evs r :
  let x := run evs r in
  (count is_trigger (trace_of x) = 0%nat → initStatus (state_of x) = initStatus r) ∧
  (count is_trigger (trace_of x) ≠ 0%nat → initStatus (state_of x) = statusPoweroff).
Proof.
  cbn zeta. revert r. induction evs as [|i evs IH]; intros r.
  - rewrite run_nil. split; [done|]. by intros [].
  - rewrite state_of_run_cons, trace_of_run_cons, count_app.
    destruct (IH (state_of (step i r))) as [IH0 IH1].
    destruct (step_accounting i r) as [[(Hs & Ht & _)|(Hs & Ht & _)] _];
      cbn zeta in Hs, Ht; rewrite Ht.
    + split; intros H; [rewrite IH0; [done|lia] | apply IH1; lia].
    + split; [lia|]. intros _.
      destruct (Nat.eq_dec (count is_trigger (trace_of (run evs (state_of (step i r)))))
                  0%nat) as [E|E]; [by rewrite IH0|by apply IH1].
Qed.

Lemma run_reboot_bound evs r :
  (count is_reboot (trace_of (run evs r))
     ≤ if (initStatus r =? statusPoweroff)%Z then 0 else 1)%nat ∧
  (count is_reboot (trace_of (run evs r)) ≤ count is_trigger (trace_of (run evs r)))%nat ∧
  Forall (λ e, is_reboot e = true → ∃ ok, e = Reboot LINUX_REBOOT_CMD_POWER_OFF ok)
    (trace_of (run evs r)).
Proof.
  revert r. induction evs as [|i evs IH]; intros r.
  - rewrite run_nil. split; [|split]; [cbn; lia|done|constructor].
  - rewrite trace_of_run_cons, !count_app.
    destruct (IH (state_of (step i r))) as (IH1 & IH2 & IH3).
    destruct (step_accounting i r) as [[(Hs & Ht & Hr)|(Hs & Ht & Hr)] Hf];
      cbn zeta in Hs, Ht, Hr, Hf; rewrite Ht, Hr.
    + rewrite Hs in IH1. cbn [Nat.add].
      split; [|split]; [exact IH1|exact IH2|by apply Forall_app].
    + rewrite Hs in IH1. change (statusPoweroff =? statusPoweroff) with true in IH1.
      cbn iota in IH1.
      split; [|split]; [destruct (initStatus r =? statusPoweroff); lia
                       |destruct (initStatus r =? statusPoweroff); lia
                       |by apply Forall_app].
Qed.

(** X9.  Whatever events arrive, in whatever order, the listener makes the
    reboot call at most once, not at all when the init status already
    is [statusPoweroff], never more often than it reaches the call of
    [shutdown], and only with the power-off command. *)
Theorem at_most_one_reboot evs r :
  let x := run evs r in
  (count is_reboot (trace_of x) ≤ 1)%nat ∧
  (initStatus r = statusPoweroff → count is_reboot (trace_of x) = 0%nat) ∧
  (count is_reboot (trace_of x) ≤ count is_trigger (trace_of x))%nat ∧
  Forall (λ e, is_reboot e = true → ∃ ok, e = Reboot LINUX_REBOOT_CMD_POWER_OFF ok)
    (trace_of x).
Proof.
  cbn zeta. destruct (run_reboot_bound evs r) as (H1 & H2 & H3).
  split; [|split; [|split]]; [destruct (initStatus r =? statusPoweroff); lia| |done|done].
  intros E. apply Z.eqb_eq in E. rewrite E in H1. cbn iota in H1. lia.
Qed.

(** X10.  Events the code does not act on (exits of threads that are not the
    group leader, and kinds other than fork, exec and exit) can be
    taken out of a sequence: registry and trace are the same. *)
Theorem ignored_events_can_be_dropped evs r :
  run (List.filter acted_on evs) r = run evs r.
Proof.
  revert r. induction evs as [|i evs IH]; intros r; [done|].
  cbn [List.filter]. destruct (acted_on i) eqn:E.
  - by rewrite !run_cons, IH.
  - assert (step i r = (tt, r, [])) as Hs.
    { unfold step, acted_on in *.
      apply orb_false_iff in E as [E E3]. apply orb_false_iff in E as [E1 E2].
      apply N.eqb_neq in E1, E2.
      destruct (N.eqb_spec (What (in_hdr i)) procEventExit) as [X|X].
      - rewrite handleEvent_exit by done. apply handleExit_thread.
        by apply N.eqb_neq.
      - apply handleEvent_other; [by intros [?|?]|done]. }
    rewrite run_cons, Hs. unfold state_of, trace_of. cbn [fst snd app].
    rewrite IH. by destruct (run evs r) as [[[] ?] ?].
Qed.

(** ** Invariants of the reachable registries *)

Lemma reachable_ind_maps (P : registry → Prop) :
  (∀ status, P (fresh status)) →
  (∀ r hdr st, P r → to_procs st = true →
               P (set_procs (insert (ProcessTgid hdr) (ProcessTgid hdr)) r)) →
  (∀ r hdr st, P r → to_procs st = false →
               P (set_internal (insert (ProcessTgid hdr) st) r)) →
  (∀ r k, P r → P (set_procs (delete k) r)) →
  (∀ r k, P r → P (set_internal (delete k) r)) →
  (∀ r z, P r → P (set_initStatus z r)) →
  ∀ r, reachable r → P r.
Proof.
  intros Hf Hp Hi Hdp Hdi Hs r. induction 1 as [status|r i _ IH|r z _ IH]; auto.
  unfold step. destruct (event_kinds (in_hdr i)) as [K|[K|[K1 K2]]].
  - rewrite handleEvent_fork_exec by done.
    destruct (os_Readlink _ _) as [st|]; [|done]. unfold state_of. cbn [fst snd].
    destruct (to_procs st) eqn:E; eauto.
  - rewrite handleEvent_exit by done.
    destruct (handleExit_cases (in_hdr i) (in_progs i) (in_env i) r) as [H|[H|[H|H]]];
      cbn zeta in H; rewrite H; auto.
  - by rewrite handleEvent_other.
Qed.

(** X11.  In every registry the listener can reach, [procs] maps each pid to
    itself. *)
Theorem reachable_procs_identity r :
  reachable r → ∀ k v, procs r !! k = Some v → v = k.
Proof.
  revert r. apply (reachable_ind_maps (λ r, ∀ k v, procs r !! k = Some v → v = k));
    try done.
  - intros r hdr _ IH _ k v. cbn. rewrite lookup_insert. case_decide; [congruence|apply IH].
  - intros r j IH k v. cbn. rewrite lookup_delete. case_decide; [done|apply IH].
Qed.

Lemma reachable_procs_identity_witness :
  reachable (state_of (run launch_of_app (fresh statusLaunching))) ∧ 100%N = 100%N.
Proof.
  split; [apply reachable_run, reach_fresh|].
  apply (reachable_procs_identity (state_of (run launch_of_app (fresh statusLaunching)))).
  - apply reachable_run, reach_fresh.
  - reflexivity.
Defined.

(** X12.  In every registry the listener can reach, each path kept in
    [internal] is of class Internal: it lies under "/vorteil/", is not
    the embedded shell, and is not empty, so that the length test of
    [handleExit] is a membership test. *)
Theorem reachable_internal_class r :
  reachable r →
  ∀ k st, internal r !! k = Some st →
          classify st = Internal ∧ String.prefix "/vorteil/" st = true ∧
          st ≠ "/vorteil/busybox" ∧ (0 < String.length st)%nat.
Proof.
  assert (∀ st, to_procs st = false →
                classify st = Internal ∧ String.prefix "/vorteil/" st = true ∧
                st ≠ "/vorteil/busybox" ∧ (0 < String.length st)%nat) as Hc.
  { intros st E. unfold classify. rewrite E. unfold to_procs in E.
    apply orb_false_iff in E as [E1 E2]. apply negb_false_iff in E1.
    apply String.eqb_neq in E2. repeat split; try done.
    destruct st; [done|cbn; lia]. }
  revert r.
  apply (reachable_ind_maps (λ r, ∀ k st, internal r !! k = Some st →
           classify st = Internal ∧ String.prefix "/vorteil/" st = true ∧
           st ≠ "/vorteil/busybox" ∧ (0 < String.length st)%nat)); try done.
  - intros r hdr st IH E k st'. cbn. rewrite lookup_insert.
    case_decide; [|apply IH]. intros [= <-]. by apply Hc.
  - intros r j IH k st. cbn. rewrite lookup_delete. case_decide; [done|apply IH].
Qed.

Lemma reachable_internal_class_witness :
  classify "/vorteil/vinitd" = Internal ∧ String.prefix "/vorteil/" "/vorteil/vinitd" = true ∧
  "/vorteil/vinitd" ≠ "/vorteil/busybox" ∧ (0 < String.length "/vorteil/vinitd")%nat.
Proof.
  apply (reachable_internal_class (state_of (run launch_of_app (fresh statusLaunching)))
           (reachable_run _ _ (reach_fresh _)) 100%N).
  reflexivity.
Defined.

(** ** [killAll], [shutdown] and [SystemPanic] *)

Lemma for_each_trace_flat_map {A} (l : list A) (body : A → M unit)
    (f : A → list effect) r :
  (∀ x r', body x r' = (tt, r', f x)) →
  for_each l body r = (tt, r, flat_map f l).
Proof.
  intros Hb. induction l as [|x l IH]; [done|].
  cbn [for_each flat_map]. unfold bind. rewrite Hb. cbn [fst snd]. by rewrite IH.
Qed.

(** The signals of one process. *)
Lemma killAll_trace_eq env r :
  trace_of (killAll env r) =
  match os_Processes env with
  | None => [Log LogError "can not get processes: %s"]
  | Some pl =>
      flat_map (λ p, if signalled p
                     then [Kill (Pid p) SIGINT (os_Kill env (Pid p) SIGINT);
                           Kill (Pid p) SIGTERM (os_Kill env (Pid p) SIGTERM)]
                     else []) pl
  end.
Proof.
  unfold killAll. destruct (os_Processes env) as [pl|]; [|done].
  erewrite for_each_trace_flat_map; [done|].
  intros p r'. unfold signalled. by destruct ((2 <? Pid p) && (2 <? PPid p)).
Qed.

(** X13.  [killAll] sends SIGINT and then SIGTERM to the processes of the
    roster whose pid and parent pid are both above 2, in roster order,
    and nothing else; when the roster cannot be read it sends no signal
    and logs one error. *)
Theorem killAll_signals env r :
  trace_of (killAll env r) =
  match os_Processes env with
  | None => [Log LogError "can not get processes: %s"]
  | Some pl =>
      flat_map (λ p, [Kill (Pid p) SIGINT (os_Kill env (Pid p) SIGINT);
                      Kill (Pid p) SIGTERM (os_Kill env (Pid p) SIGTERM)])
        (List.filter signalled pl)
  end ∧
  state_of (killAll env r) = r.
Proof.
  split; [|apply killAll_state]. rewrite killAll_trace_eq.
  destruct (os_Processes env) as [pl|]; [|done].
  induction pl as [|p pl IH]; [done|].
  cbn [flat_map List.filter]. rewrite IH. by destruct (signalled p).
Qed.

(** X14.  [killAll] never signals pid 1 or 2, nor a child of either: every
    signal goes to a process of the roster with pid and parent pid
    above 2, and is SIGINT or SIGTERM. *)
Theorem killAll_spares_init env r :
  Forall (λ e, match e with
               | Kill pid sig _ =>
                   2 < pid ∧ (sig = SIGINT ∨ sig = SIGTERM) ∧
                   ∃ pl p, os_Processes env = Some pl ∧ p ∈ pl ∧ Pid p = pid ∧ 2 < PPid p
               | Log LogError _ => os_Processes env = None
               | _ => False
               end)
    (trace_of (killAll env r)).
Proof.
  rewrite killAll_trace_eq. destruct (os_Processes env) as [pl|]; [|by repeat constructor].
  apply Forall_flat_map, Forall_forall. intros p Hp.
  unfold signalled. destruct (Z.ltb_spec 2 (Pid p)); [|constructor].
  destruct (Z.ltb_spec 2 (PPid p)); [|constructor]. cbn [andb].
  constructor; [split; [done|split; [by left|eauto 10]]|].
  constructor; [split; [done|split; [by right|eauto 10]]|constructor].
Qed.

Lemma slept_app t1 t2 : slept (t1 ++ t2) = slept t1 + slept t2.
Proof.
  induction t1 as [|e t1 IH]; [done|]. cbn [app slept]. destruct e; lia.
Qed.

Lemma killAll_slept env r : slept (trace_of (killAll env r)) = 0.
Proof.
  rewrite killAll_trace_eq. destruct (os_Processes env) as [pl|]; [|done].
  induction pl as [|p pl IH]; [done|]. cbn [flat_map]. rewrite slept_app, IH.
  by destruct (signalled p).
Qed.

Lemma shutdown_trace_eq cmd timeout env r :
  initStatus r ≠ statusPoweroff →
  trace_of (shutdown cmd timeout env r) =
  Log LogAlways "shutting down applications"
    :: trace_of (killAll env (set_initStatus statusPoweroff r))
    ++ [Sleep timeout;
        Log LogAlways "shutting down in 3..."; Sleep 1000;
        Log LogAlways "shutting down in 2..."; Sleep 1000;
        Log LogAlways "shutting down in 1..."; Sleep 1000;
        WriteFile sysrq_trigger "s" (os_WriteFile env sysrq_trigger "s");
        WriteFile sysrq_trigger "u" (os_WriteFile env sysrq_trigger "u");
        match os_bootDisk env with
        | Some p => FlushDisk p
        | None => Log LogError "could not get disk name: %s"
        end;
        Reboot cmd (os_Reboot env cmd)].
Proof.
  intros H. rewrite shutdown_entered by done. unfold shutdown_body. unfold_M.
  cbn [for_each]. unfold_M. cbn [app]. rewrite <- !app_assoc. cbn [app].
  by destruct (os_bootDisk env).
Qed.

Lemma wrap_int64_small z :
  -9223372036854775808 ≤ z < 9223372036854775808 → wrap_int64 z = z.
Proof.
  intros H. unfold wrap_int64. rewrite Z.mod_small by lia. lia.
Qed.

Lemma slept_for_in_range ms :
  0 ≤ ms ≤ 9223372036854 → slept_for ms = ms * 1000000.
Proof.
  intros H. unfold slept_for, Duration_of_millis.
  rewrite (wrap_int64_small ms) by lia. rewrite wrap_int64_small by lia. lia.
Qed.

Lemma slept_for_negative ms :
  -9223372036854 ≤ ms ≤ 0 → slept_for ms = 0.
Proof.
  intros H. unfold slept_for, Duration_of_millis.
  rewrite (wrap_int64_small ms) by lia. rewrite wrap_int64_small by lia. lia.
Qed.

Lemma shutdown_slept cmd timeout env r :
  initStatus r ≠ statusPoweroff →
  slept (trace_of (shutdown cmd timeout env r)) = slept_for timeout + 3000000000.
Proof.
  intros H. rewrite shutdown_trace_eq by done.
  cbn [slept]. rewrite slept_app, killAll_slept.
  cbn [slept]. rewrite (slept_for_in_range 1000) by lia.
  destruct (os_bootDisk env); cbn [slept]; lia.
Qed.

(** X15.  Past its guard, [shutdown] signals first, then sleeps the grace
    period and three more seconds, then writes "s" and "u" to the sysrq
    trigger, then flushes the boot disk (or logs that it has none),
    and reboots last.  The time it sleeps is that of the grace period
    as [time.Sleep] takes it plus three seconds: [timeout] + 3000
    milliseconds for a [timeout] from 0 to 9223372036854, and the
    three seconds alone for a negative [timeout] down to
    -9223372036854, where [time.Sleep] returns at once. *)
Theorem shutdown_sequence cmd timeout env r :
  initStatus r ≠ statusPoweroff →
  let t := trace_of (shutdown cmd timeout env r) in
  t = Log LogAlways "shutting down applications"
        :: trace_of (killAll env (set_initStatus statusPoweroff r))
        ++ [Sleep timeout;
            Log LogAlways "shutting down in 3..."; Sleep 1000;
            Log LogAlways "shutting down in 2..."; Sleep 1000;
            Log LogAlways "shutting down in 1..."; Sleep 1000;
            WriteFile sysrq_trigger "s" (os_WriteFile env sysrq_trigger "s");
            WriteFile sysrq_trigger "u" (os_WriteFile env sysrq_trigger "u");
            match os_bootDisk env with
            | Some p => FlushDisk p
            | None => Log LogError "could not get disk name: %s"
            end;
            Reboot cmd (os_Reboot env cmd)] ∧
  slept t = slept_for timeout + 3000000000 ∧
  (0 ≤ timeout ≤ 9223372036854 → slept t = (timeout + 3000) * 1000000) ∧
  (-9223372036854 ≤ timeout ≤ 0 → slept t = 3000000000).
Proof.
  intros H. cbn zeta. split; [by apply shutdown_trace_eq|].
  rewrite shutdown_slept by done. split; [done|]. split; intros Ht.
  - rewrite slept_for_in_range by done. lia.
  - rewrite slept_for_negative by done. lia.
Qed.

Lemma shutdown_sequence_witness :
  slept (trace_of (shutdown LINUX_REBOOT_CMD_RESTART 500 (busy_os "/usr/bin/app")
                     (fresh statusLaunched))) = (500 + 3000) * 1000000.
Proof.
  refine (proj1 (proj2 (proj2 (shutdown_sequence LINUX_REBOOT_CMD_RESTART 500
                                 (busy_os "/usr/bin/app") (fresh statusLaunched) _))) _).
  - unfold statusLaunched, statusPoweroff. cbn. lia.
  - lia.
Defined.

(** X16.  Once [shutdown] has been called, a later call, with whatever
    arguments and whoever makes it, returns at its guard: it changes
    nothing and calls nothing, so the two calls together reboot at most
    once. *)
Theorem shutdown_runs_once cmd1 t1 env1 cmd2 t2 env2 r :
  let first := shutdown cmd1 t1 env1 r in
  let second := shutdown cmd2 t2 env2 (state_of first) in
  second = (tt, state_of first, []) ∧
  (count is_reboot (trace_of first ++ trace_of second) ≤ 1)%nat.
Proof.
  cbn zeta. rewrite shutdown_state.
  rewrite (shutdown_guarded cmd2) by done. split; [done|].
  unfold trace_of at 2. cbn [snd]. rewrite app_nil_r.
  destruct (shutdown_trace_counts cmd1 t1 env1 r) as [_ ->].
  destruct (initStatus r =? statusPoweroff); lia.
Qed.

(** X17.  [SystemPanic] always writes its message and leaves the init status
    at [statusPoweroff] and the maps alone.  The first time it runs the
    shutdown sequence with the power-off command and the forced
    timeout; when the machine already is powering off it only writes
    the message. *)
Theorem SystemPanic_powers_off timeout format env r :
  let x := SystemPanic timeout format env r in
  state_of x = set_initStatus statusPoweroff r ∧
  trace_of x = Log LogAlways format
                 :: trace_of (shutdown LINUX_REBOOT_CMD_POWER_OFF timeout env r) ∧
  (initStatus r = statusPoweroff → trace_of x = [Log LogAlways format]) ∧
  (initStatus r ≠ statusPoweroff →
   count is_reboot (trace_of x) = 1%nat ∧
   slept (trace_of x) = slept_for timeout + 3000000000 ∧
   last (trace_of x)
     = Some (Reboot LINUX_REBOOT_CMD_POWER_OFF (os_Reboot env LINUX_REBOOT_CMD_POWER_OFF))).
Proof.
  cbn zeta.
  assert (state_of (SystemPanic timeout format env r) = set_initStatus statusPoweroff r ∧
          trace_of (SystemPanic timeout format env r)
          = Log LogAlways format
              :: trace_of (shutdown LINUX_REBOOT_CMD_POWER_OFF timeout env r)) as [Hs Ht].
  { pose proof (shutdown_state LINUX_REBOOT_CMD_POWER_OFF timeout env r) as Hs.
    unfold SystemPanic. unfold_M. by rewrite Hs. }
  rewrite Hs, Ht. split; [done|]. split; [done|]. split.
  - intros E. by rewrite shutdown_guarded.
  - intros E.
    pose proof (shutdown_trace_eq LINUX_REBOOT_CMD_POWER_OFF timeout env r E) as Hq.
    pose proof (shutdown_slept LINUX_REBOOT_CMD_POWER_OFF timeout env r E) as Hz.
    destruct (shutdown_trace_counts LINUX_REBOOT_CMD_POWER_OFF timeout env r) as [_ Hr].
    apply Z.eqb_neq in E. rewrite E in Hr.
    split; [|split].
    + change (Log LogAlways format :: ?t) with ([Log LogAlways format] ++ t).
      by rewrite count_app, Hr.
    + cbn [slept]. exact Hz.
    + rewrite Hq. rewrite !app_comm_cons, last_app_cons. reflexivity.
Qed.

(** ** The listener *)

Lemma M_eta {A} (x : A * registry * list effect) : (x.1.1, x.1.2, x.2) = x.
Proof. by destruct x as [[? ?] ?]. Qed.

Lemma bind_skip (c : M unit) (k : M unit) r :
  c r = (tt, r, []) → bind c (λ _, k) r = k r.
Proof.
  intros H. unfold bind. rewrite H. cbn [fst snd app]. apply M_eta.
Qed.

Lemma run_app_eq evs1 evs2 r :
  run (evs1 ++ evs2) r = bind (run evs1) (λ _, run evs2) r.
Proof.
  destruct (run_app evs1 evs2 r) as [Hs Ht]. unfold bind.
  unfold state_of, trace_of in *. rewrite <- Hs, <- Ht.
  destruct (run evs2 (run evs1 r).1.2) as [[[] ?] ?].
  by destruct (run (evs1 ++ evs2) r) as [[[] ?] ?].
Qed.

Lemma parse_all_run i ms progs env r :
  parse_all i ms progs env r = run (inputs_of i ms progs env) r.
Proof.
  revert i r. induction ms as [|m ms IH]; intros i r; [done|].
  cbn [parse_all inputs_of]. rewrite run_app_eq.
  unfold bind at 1 2.
  assert (parseNetlinkMessage m progs (env i) r
          = run (map (λ hdr, mkInput hdr progs (env i)) (decodeEvents m)) r) as ->.
  { rewrite parseNetlinkMessage_decodeEvents. unfold decodeEvents.
    destruct (nl_Type (Header m) =? NLMSG_DONE)%N; [|done]. cbn zeta.
    destruct (is_event _); [|done]. cbn [map].
    rewrite run_cons, run_nil. unfold step, state_of, trace_of. cbn [fst snd in_hdr in_progs in_env].
    rewrite app_nil_r. by destruct (handleEvent _ _ _ _) as [[[] ?] ?]. }
  by rewrite IH.
Qed.

(** X18.  Handling the messages of a datagram is handling, in order, the
    events they decode to: a message that decodes to nothing is
    skipped without a trace. *)
Theorem parse_all_as_run i ms progs env r :
  parse_all i ms progs env r = run (inputs_of i ms progs env) r.
Proof. apply parse_all_run. Qed.

Lemma for_each_app {A} (l1 l2 : list A) (body : A → M unit) r :
  for_each (l1 ++ l2) body r = bind (for_each l1 body) (λ _, for_each l2 body) r.
Proof.
  revert r. induction l1 as [|x l1 IH]; intros r.
  - cbn [app for_each]. unfold bind, ret. cbn [fst snd app]. by rewrite M_eta.
  - cbn [app for_each]. unfold bind at 1 3. rewrite IH. unfold bind.
    cbn [fst snd]. by rewrite app_assoc.
Qed.

(** X19.  A datagram that [recv] refuses costs one warning and nothing else:
    the turns before and after it run as if it had not arrived. *)
Theorem refused_datagram_only_warns parse rs1 bad rs2 r :
  (∃ e, recv parse (rd_recv bad) = Err e) →
  state_of (listen_loop parse (rs1 ++ bad :: rs2) r)
    = state_of (listen_loop parse (rs1 ++ rs2) r) ∧
  trace_of (listen_loop parse (rs1 ++ bad :: rs2) r)
    = trace_of (listen_loop parse rs1 r)
      ++ Log LogWarn "error receiving netlink message: %s"
      :: trace_of (listen_loop parse rs2 (state_of (listen_loop parse rs1 r))).
Proof.
  intros [e He].
  assert (∀ r', listenOnce parse (rd_recv bad) (rd_progs bad) (rd_env bad) r'
                = (tt, r', [Log LogWarn "error receiving netlink message: %s"])) as Hb.
  { intros r'. unfold listenOnce. by rewrite He. }
  unfold listen_loop. rewrite !for_each_app. cbn [for_each].
  unfold bind, state_of, trace_of. cbn [fst snd]. by rewrite !Hb.
Qed.

Lemma refused_datagram_only_warns_witness :
  let bad := {| rd_recv := {| rf_nr := 60; rf_from := None; rf_err := Some "EINTR";
                              rf_p := [] |};
                rd_progs := []; rd_env := λ _, failing_os "/usr/bin/app" |} in
  state_of (listen_loop (λ _, Ok []) ([] ++ bad :: []) (fresh statusLaunched))
  = state_of (listen_loop (λ _, Ok []) ([] ++ []) (fresh statusLaunched)).
Proof.
  cbn zeta.
  refine (proj1 (refused_datagram_only_warns (λ _, Ok []) [] _ [] (fresh statusLaunched) _)).
  by exists "can not create netlink sockaddr".
Defined.

(** X20.  [recv] succeeds exactly when the sender is the kernel, [Recvfrom]
    reported no error, at least a netlink header was received and the
    bytes received parse; its result is the parse of those bytes and of
    nothing beyond them. *)
Theorem recv_ok_iff parse rf ms :
  recv parse rf = Ok ms ↔
  (∃ sa, rf_from rf = Some (Netlink sa) ∧ sa_Pid sa = 0%N) ∧
  rf_err rf = None ∧
  NLMSG_HDRLEN ≤ rf_nr rf ∧
  parse (take (Z.to_nat (rf_nr rf)) (rf_p rf)) = Ok ms.
Proof.
  unfold recv. split.
  - destruct (rf_from rf) as [[sa|]|]; [|done..].
    destruct (N.eqb_spec (sa_Pid sa) 0); [|done]. cbn [negb].
    destruct (rf_err rf); [done|].
    destruct (Z.ltb_spec (rf_nr rf) NLMSG_HDRLEN); [done|].
    destruct (parse _) as [ms'|] eqn:E; [|done]. intros [= ->]. eauto 10.
  - intros ((sa & -> & Hp) & -> & Hn & ->).
    apply N.eqb_eq in Hp. rewrite Hp. cbn [negb].
    apply Z.ltb_ge in Hn. by rewrite Hn.
Qed.

(** X21.  When the socket cannot be created, bound or subscribed, the
    listener logs one error and never receives: the maps are the empty
    ones it has just made and the init status is untouched. *)
Theorem transport_failure_stops_listener parse tr rounds r :
  (∃ e, tr_Socket tr = Err e) ∨
  (∃ sock, tr_Socket tr = Ok sock ∧
           (is_Some (tr_Bind tr sock (bind_addr tr)) ∨
            is_Some (send tr sock procCNMCASTListen))) →
  ∃ line, listenToProcesses parse tr rounds r
          = (tt, fresh (initStatus r), [Log LogError line]).
Proof.
  unfold listenToProcesses, bind_addr. unfold bind, modify. cbn [fst snd app].
  intros [[e ->]|(sock & -> & [[e He]|[e He]])].
  - eauto.
  - rewrite He. eauto.
  - destruct (tr_Bind tr sock _); [eauto|]. rewrite He. eauto.
Qed.

Lemma transport_failure_stops_listener_witness :
  ∃ line,
    listenToProcesses (λ _, Ok [])
      {| tr_Getpid := 1; tr_Socket := Ok 3; tr_Bind := λ _ _, Some "EADDRINUSE";
         tr_Sendto := λ _ _ _, None |}
      [] {| procs := {[ 5%N := 5%N ]}; internal := ∅; initStatus := statusLaunching |}
    = (tt, fresh statusLaunching, [Log LogError line]).
Proof.
  apply (transport_failure_stops_listener (λ _, Ok [])
           {| tr_Getpid := 1; tr_Socket := Ok 3; tr_Bind := λ _ _, Some "EADDRINUSE";
              tr_Sendto := λ _ _ _, None |}
           [] {| procs := {[ 5%N := 5%N ]}; internal := ∅; initStatus := statusLaunching |}).
  right. exists 3. split; [reflexivity|]. left. by eexists.
Defined.

(** ** The listener as a run of events *)

Lemma shutdown_no_warning cmd timeout env r :
  Forall (λ e, is_warning e = false) (trace_of (shutdown cmd timeout env r)).
Proof.
  destruct (Z.eq_dec (initStatus r) statusPoweroff) as [E|E].
  - rewrite shutdown_guarded by done. constructor.
  - rewrite shutdown_trace_eq by done.
    constructor; [done|]. apply Forall_app. split.
    + rewrite killAll_trace_eq. destruct (os_Processes env) as [pl|];
        [|by repeat constructor].
      apply Forall_flat_map, Forall_forall. intros p _.
      destruct (signalled p); by repeat constructor.
    + destruct (os_bootDisk env); by repeat constructor.
Qed.

Lemma run_no_warning evs r :
  Forall (λ e, is_warning e = false) (trace_of (run evs r)).
Proof.
  revert r. induction evs as [|i evs IH]; intros r; [constructor|].
  rewrite trace_of_run_cons. apply Forall_app. split; [|apply IH].
  unfold step.
  destruct (handleEvent_shutdown_or_not (in_hdr i) (in_progs i) (in_env i) r)
    as [(_ & _ & Ht)|(_ & _ & Ht)]; cbn zeta in Ht.
  - rewrite Ht. apply Forall_app. split; [by repeat constructor|].
    apply shutdown_no_warning.
  - eapply Forall_impl; [exact Ht|]. by intros [[]| | | | |].
Qed.

Lemma filter_all {A} (p : A → bool) l :
  Forall (λ x, p x = true) l → List.filter p l = l.
Proof.
  induction 1 as [|x l Hx _ IH]; [done|]. cbn. by rewrite Hx, IH.
Qed.

Lemma listenOnce_as_run parse rd r :
  state_of (listenOnce parse (rd_recv rd) (rd_progs rd) (rd_env rd) r)
    = state_of (run (inputs_of_round parse rd) r) ∧
  List.filter (λ e, negb (is_warning e))
    (trace_of (listenOnce parse (rd_recv rd) (rd_progs rd) (rd_env rd) r))
    = trace_of (run (inputs_of_round parse rd) r).
Proof.
  unfold listenOnce, inputs_of_round. destruct (recv parse (rd_recv rd)) as [ms|e].
  - rewrite parse_all_run. split; [done|]. apply filter_all.
    eapply Forall_impl; [apply run_no_warning|]. by intros e ->.
  - done.
Qed.

Lemma listen_loop_run parse rounds r :
  let evs := flat_map (inputs_of_round parse) rounds in
  state_of (listen_loop parse rounds r) = state_of (run evs r) ∧
  List.filter (λ e, negb (is_warning e)) (trace_of (listen_loop parse rounds r))
    = trace_of (run evs r).
Proof.
  cbn zeta. revert r. induction rounds as [|rd rounds IH]; intros r; [done|].
  cbn [flat_map]. destruct (run_app (inputs_of_round parse rd)
                              (flat_map (inputs_of_round parse) rounds) r) as [-> ->].
  destruct (listenOnce_as_run parse rd r) as [Hs Ht].
  unfold listen_loop in *. cbn [for_each]. unfold bind.
  unfold state_of, trace_of in *. cbn [fst snd].
  rewrite List.filter_app, Ht, Hs.
  destruct (IH (run (inputs_of_round parse rd) r).1.2) as [-> ->]. done.
Qed.

(** X22.  The receive loop is a run of the events its datagrams decode to:
    the registry is the same, and the calls to the outside are the
    same once the warnings for refused datagrams are left out. *)
Theorem listen_loop_as_run parse rounds r :
  let evs := flat_map (inputs_of_round parse) rounds in
  state_of (listen_loop parse rounds r) = state_of (run evs r) ∧
  List.filter (λ e, negb (is_warning e)) (trace_of (listen_loop parse rounds r))
    = trace_of (run evs r).
Proof. apply listen_loop_run. Qed.

Lemma listenToProcesses_cases parse tr rounds r :
  (∃ line, listenToProcesses parse tr rounds r
           = (tt, fresh (initStatus r), [Log LogError line])) ∨
  listenToProcesses parse tr rounds r = listen_loop parse rounds (fresh (initStatus r)).
Proof.
  unfold listenToProcesses. unfold bind, modify. cbn [fst snd app].
  destruct (tr_Socket tr) as [sock|e]; [|left; eauto]. cbn zeta.
  destruct (tr_Bind tr sock _); [left; eauto|].
  destruct (send tr sock _); [left; eauto|].
  right. apply M_eta.
Qed.

Lemma count_filter_keep p q (t : list effect) :
  (∀ e, p e = true → q e = true) → count p (List.filter q t) = count p t.
Proof.
  intros H. induction t as [|e t IH]; [done|].
  cbn [List.filter]. change (e :: t) with ([e] ++ t). rewrite count_app.
  destruct (q e) eqn:Eq.
  - change (e :: List.filter q t) with ([e] ++ List.filter q t).
    by rewrite count_app, IH.
  - rewrite IH. destruct (p e) eqn:Ep; [apply H in Ep; congruence|].
    rewrite (Forall_count_0 p [e]) by (by constructor). done.
Qed.

(** X23.  Whatever the socket delivers, the registry of the listener is one
    the event handlers reach from the empty maps, so what holds of all
    reachable registries holds of it. *)
Theorem listener_registry_reachable parse tr rounds r :
  reachable (state_of (listenToProcesses parse tr rounds r)).
Proof.
  destruct (listenToProcesses_cases parse tr rounds r) as [[line ->]| ->].
  - apply reach_fresh.
  - destruct (listen_loop_run parse rounds (fresh (initStatus r))) as [-> _].
    apply reachable_run, reach_fresh.
Qed.

(** X24.  Whatever the socket delivers, the listener makes the reboot call
    at most once, and only to power off. *)
Theorem listener_reboots_at_most_once parse tr rounds r :
  let t := trace_of (listenToProcesses parse tr rounds r) in
  (count is_reboot t ≤ 1)%nat ∧
  Forall (λ e, is_reboot e = true → ∃ ok, e = Reboot LINUX_REBOOT_CMD_POWER_OFF ok) t.
Proof.
  cbn zeta. destruct (listenToProcesses_cases parse tr rounds r) as [[line ->]| ->].
  - unfold trace_of. cbn [snd]. split; [|by repeat constructor].
    rewrite (Forall_count_0 is_reboot) by (by repeat constructor). lia.
  - destruct (listen_loop_run parse rounds (fresh (initStatus r))) as [_ Ht].
    cbn zeta in Ht.
    destruct (run_reboot_bound (flat_map (inputs_of_round parse) rounds)
                (fresh (initStatus r))) as (H1 & _ & H3).
    rewrite <- Ht in H1, H3. split.
    + rewrite count_filter_keep in H1 by (by intros [[]| | | | |]).
      destruct (_ =? _); lia.
    + apply Forall_forall. intros e He Hr. rewrite Forall_forall in H3.
      apply H3; [|done]. apply list_elem_of_In, filter_In.
      split; [by apply list_elem_of_In|]. by destruct e as [[]| | | | |].
Qed.

(** ** [uniqueIPs] and [ip2networkInt] *)

Section UniqueIPsFacts.

Variable IP_String : list byte → string.

Lemma uniqueIPs_loop_spec ipSlice keys acc :
  (∀ s, is_Some (keys !! s) ↔ s ∈ IP_String <$> acc) →
  NoDup (IP_String <$> acc) →
  NoDup (IP_String <$> uniqueIPs_loop IP_String ipSlice keys acc) ∧
  (∀ s, s ∈ IP_String <$> uniqueIPs_loop IP_String ipSlice keys acc ↔
        s ∈ IP_String <$> acc ∨ s ∈ IP_String <$> ipSlice) ∧
  ∃ kept, uniqueIPs_loop IP_String ipSlice keys acc = acc ++ kept ∧
          kept `sublist_of` ipSlice.
Proof.
  revert keys acc. induction ipSlice as [|entry rest IH]; intros keys acc Hk Hn.
  - cbn [uniqueIPs_loop]. split; [done|]. split.
    + intros s. rewrite fmap_nil, elem_of_nil. tauto.
    + exists []. by rewrite app_nil_r.
  - cbn [uniqueIPs_loop]. destruct (keys !! IP_String entry) as [v|] eqn:E.
    + destruct (IH keys acc Hk Hn) as (H1 & H2 & kept & H3 & H4).
      split; [done|]. split.
      * intros s. rewrite H2, fmap_cons, elem_of_cons.
        assert (IP_String entry ∈ IP_String <$> acc) by (apply Hk; by rewrite E).
        split; [tauto|]. intros [?|[->|?]]; auto.
      * exists kept. split; [done|]. by apply sublist_cons.
    + destruct (IH (<[IP_String entry := true]> keys) (acc ++ [entry]))
        as (H1 & H2 & kept & H3 & H4).
      * intros s. rewrite fmap_app, elem_of_app, fmap_cons, fmap_nil, list_elem_of_singleton.
        rewrite lookup_insert. case_decide as D.
        -- subst s. split; [auto|]. intros _. by eexists.
        -- rewrite Hk. split; [auto|]. intros [?|?]; [done|congruence].
      * rewrite fmap_app. apply NoDup_app. split; [done|]. split.
        -- intros s Hs. rewrite fmap_cons, fmap_nil, list_elem_of_singleton. intros ->.
           apply Hk in Hs. rewrite E in Hs. by destruct Hs.
        -- apply NoDup_singleton.
      * split; [done|]. split.
        -- intros s. rewrite H2, fmap_app, elem_of_app, !fmap_cons, fmap_nil,
             list_elem_of_singleton, elem_of_cons. tauto.
        -- exists (entry :: kept). split; [by rewrite H3, <- app_assoc|].
           by apply sublist_skip.
Qed.

(** X25.  The addresses [uniqueIPs] returns print differently from one
    another. *)
Theorem uniqueIPs_distinct ipSlice :
  NoDup (IP_String <$> uniqueIPs IP_String ipSlice).
Proof.
  apply (uniqueIPs_loop_spec ipSlice ∅ []).
  - intros s. rewrite lookup_empty, fmap_nil, elem_of_nil. split; [by intros []|done].
  - constructor.
Qed.

(** X26.  [uniqueIPs] loses no address and invents none: the printed forms
    of its result are those of its argument, and its result is the
    argument with entries left out, in the same order. *)
Theorem uniqueIPs_same_addresses ipSlice :
  (∀ s, s ∈ IP_String <$> uniqueIPs IP_String ipSlice ↔ s ∈ IP_String <$> ipSlice) ∧
  uniqueIPs IP_String ipSlice `sublist_of` ipSlice ∧
  (length (uniqueIPs IP_String ipSlice) ≤ length ipSlice)%nat.
Proof.
  destruct (uniqueIPs_loop_spec ipSlice ∅ []) as (_ & H2 & kept & H3 & H4).
  - intros s. rewrite lookup_empty, fmap_nil, elem_of_nil. split; [by intros []|done].
  - constructor.
  - unfold uniqueIPs. cbn [app] in H3. split; [|split].
    + intros s. rewrite H2, fmap_nil, elem_of_nil. tauto.
    + by rewrite H3.
    + rewrite H3. by apply sublist_length.
Qed.

Lemma uniqueIPs_loop_distinct ipSlice keys acc :
  (∀ s, is_Some (keys !! s) ↔ s ∈ IP_String <$> acc) →
  NoDup (IP_String <$> (acc ++ ipSlice)) →
  uniqueIPs_loop IP_String ipSlice keys acc = acc ++ ipSlice.
Proof.
  revert keys acc. induction ipSlice as [|entry rest IH]; intros keys acc Hk Hn.
  - cbn. by rewrite app_nil_r.
  - cbn [uniqueIPs_loop].
    rewrite fmap_app, fmap_cons in Hn. apply NoDup_app in Hn as (Hn1 & Hn2 & Hn3).
    destruct (keys !! IP_String entry) as [v|] eqn:E.
    + exfalso. apply (Hn2 (IP_String entry)); [apply Hk; by rewrite E|].
      apply elem_of_cons. by left.
    + rewrite IH; [by rewrite <- app_assoc| |].
      * intros s. rewrite fmap_app, elem_of_app, fmap_cons, fmap_nil, list_elem_of_singleton.
        rewrite lookup_insert. case_decide as D.
        -- subst s. split; [auto|]. intros _. by eexists.
        -- rewrite Hk. split; [auto|]. intros [?|?]; [done|congruence].
      * rewrite <- app_assoc. cbn [app]. rewrite fmap_app, fmap_cons.
        apply NoDup_app. by repeat split.
Qed.

(** X27.  A list whose addresses already print differently from one another
    comes back unchanged; so applying [uniqueIPs] twice is applying it
    once. *)
Theorem uniqueIPs_fixpoint ipSlice :
  (NoDup (IP_String <$> ipSlice) → uniqueIPs IP_String ipSlice = ipSlice) ∧
  uniqueIPs IP_String (uniqueIPs IP_String ipSlice) = uniqueIPs IP_String ipSlice.
Proof.
  assert (∀ l, NoDup (IP_String <$> l) → uniqueIPs IP_String l = l) as H.
  { intros l Hl. unfold uniqueIPs. rewrite uniqueIPs_loop_distinct; [done| |done].
    intros s. rewrite lookup_empty, fmap_nil, elem_of_nil. split; [by intros []|done]. }
  split; [apply H|]. apply H.
  apply (uniqueIPs_loop_spec ipSlice ∅ []).
  - intros s. rewrite lookup_empty, fmap_nil, elem_of_nil. split; [by intros []|done].
  - constructor.
Qed.

End UniqueIPsFacts.

(** X28.  [ip2networkInt] reads four bytes lowest first, the first four of
    the slice or, for a slice of length 16, the last four: an address
    in its 16-byte form gives the same number as its four-byte form. *)
Theorem ip2networkInt_value pre a b c d :
  length pre = 12%nat →
  ip2networkInt (pre ++ [a; b; c; d]) = ip2networkInt [a; b; c; d] ∧
  ip2networkInt [a; b; c; d]
    = Some (Byte.to_N a + 256 * Byte.to_N b + 65536 * Byte.to_N c
            + 16777216 * Byte.to_N d)%N.
Proof.
  intros H. split.
  - unfold ip2networkInt. rewrite length_app, H. cbn [length Nat.add Nat.eqb].
    rewrite <- H, drop_app_length. reflexivity.
  - unfold ip2networkInt, LittleEndian_Uint32. cbn [length Nat.eqb Nat.leb take le_uint].
    f_equal. lia.
Qed.

Lemma ip2networkInt_value_witness :
  ip2networkInt ([x00; x00; x00; x00; x00; x00; x00; x00; x00; x00; xff; xff]
                   ++ [xc0; xa8; x01; x0a])%byte
  = ip2networkInt [xc0; xa8; x01; x0a]%byte.
Proof.
  refine (proj1 (ip2networkInt_value _ _ _ _ _ _)). reflexivity.
Defined.

(** X29.  [ip2networkInt] fails (the slice index panics) exactly on slices
    shorter than four bytes; otherwise its result fits 32 bits and
    depends on nothing but the four bytes it reads. *)
Theorem ip2networkInt_defined ip :
  (ip2networkInt ip = None ↔ (length ip < 4)%nat) ∧
  (∀ n, ip2networkInt ip = Some n → (n < 2 ^ 32)%N) ∧
  (∀ rest, (4 ≤ length ip)%nat → length ip ≠ 16%nat → length (ip ++ rest) ≠ 16%nat →
           ip2networkInt (ip ++ rest) = ip2networkInt ip).
Proof.
  unfold ip2networkInt, LittleEndian_Uint32. split; [|split].
  - destruct (Nat.eqb_spec (length ip) 16) as [E|E].
    + rewrite length_take, length_drop, E. cbn. split; [done|lia].
    + destruct (Nat.leb_spec 4 (length ip)); split; try done; lia.
  - intros n Hn.
    assert (∀ bs, (le_uint (take 4 bs) < 2 ^ 32)%N) as Hb.
    { intros bs. eapply N.lt_le_trans; [apply le_uint_bound|].
      change (2 ^ 32)%N with (256 ^ 4)%N. apply N.pow_le_mono_r; [done|].
      rewrite length_take. lia. }
    destruct (length ip =? 16)%nat; destruct (4 <=? _)%nat; try done;
      injection Hn as <-; apply Hb.
  - intros rest H4 H16 H16'.
    apply Nat.eqb_neq in H16, H16'. rewrite H16, H16'.
    assert ((4 <=? length ip)%nat = true) as -> by by apply Nat.leb_le.
    assert ((4 <=? length (ip ++ rest))%nat = true) as ->
      by (apply Nat.leb_le; rewrite length_app; lia).
    by rewrite take_app_le.
Qed.
